(** * Voice-activity-gated recorder (src/project1/main.py)

    A shallow embedding of the recorder of [src/project1/main.py]:
    the energy meter, the adaptive classifier, the recording state
    machine, the ingestion channel with its warm-up discard, and the
    trimming buffer of the processing loop.

    Numbers are modelled as the code has them: [np.int64] as [Z] with
    its wrap-around written out, [np.float64] and Python [float] as
    IEEE 754 binary64 through the executable specification
    [spec_float] of the standard library (precision 53, [emax] 1024,
    round to nearest even). *)

From Stdlib Require Import ZArith List Bool Lia Permutation.
From Stdlib Require Import QArith Qabs Lqa Qpower.
From Stdlib Require Import SpecFloat.
From Stdlib.Strings Require Byte.
Import ListNotations.

Local Open Scope Z_scope.

(** ** Module constants (main.py, lines 11-24) *)

Definition SIZEOF_FRAME : Z := 2.
Definition N_CHANNEL : Z := 1.
Definition SAMPLING_RATE : Z := 16000.
Definition CHUNK_MS : Z := 20.
Definition N_FRAME_PER_CHUNK : Z := SAMPLING_RATE * CHUNK_MS / 1000.
Definition MAX_PAUSE_MS : Z := 2000.

(** [buffer_size] of [main] (line 33). *)
Definition buffer_size : Z := SAMPLING_RATE * MAX_PAUSE_MS * SIZEOF_FRAME / 1000.

(** ** Binary64 arithmetic *)

Module F64.

Definition prec : Z := 53.
Definition emax : Z := 1024.

Definition float := spec_float.

Definition add : float -> float -> float := SFadd prec emax.
Definition sub : float -> float -> float := SFsub prec emax.
Definition mul : float -> float -> float := SFmul prec emax.
Definition div : float -> float -> float := SFdiv prec emax.

(** Python's [<], [>] and [>=] on floats: every comparison with a NaN
    is false. *)
Definition ltb (x y : float) : bool := SFltb x y.
Definition gtb (x y : float) : bool := SFltb y x.
Definition geb (x y : float) : bool := SFleb y x.
Definition leb (x y : float) : bool := SFleb x y.

(** Conversion of an integer, correctly rounded (exact below 2^53). *)
Definition of_Z (z : Z) : float := binary_normalize prec emax z 0 false.

(** A decimal literal [n / d] with [n] and [d] exactly representable:
    the division is correctly rounded, so the result is the double
    nearest to the decimal, which is how Python reads the literal. *)
Definition lit (n d : Z) : float := div (of_Z n) (of_Z d).

Definition nan : float := S754_nan.
Definition pinf : float := S754_infinity false.
Definition ninf : float := S754_infinity true.

Definition valid (x : float) : bool := valid_binary prec emax x.

End F64.

Declare Scope f64_scope.
Delimit Scope f64_scope with f64.
Bind Scope f64_scope with F64.float.
Infix "+" := F64.add : f64_scope.
Infix "-" := F64.sub : f64_scope.
Infix "*" := F64.mul : f64_scope.
Infix "/" := F64.div : f64_scope.
Infix "<?" := F64.ltb : f64_scope.
Infix ">?" := F64.gtb : f64_scope.
Infix ">=?" := F64.geb : f64_scope.

(** ** Classifier constants (main.py, lines 105-112 and 154) *)

Definition STARTING_THRESHOLD_DB : F64.float := Eval vm_compute in F64.of_Z 15.
Definition CONTINUING_THRESHOLD_DB : F64.float := Eval vm_compute in F64.of_Z 2.
Definition STOPPING_THRESHOLD_DB : F64.float := Eval vm_compute in F64.of_Z (-20).
Definition WEAK_ADJUSTMENT : F64.float := Eval vm_compute in F64.lit 5 100.
Definition STRONG_ADJUSTMENT : F64.float := Eval vm_compute in F64.lit 8 10.
Definition FORGET_FACTOR : F64.float := Eval vm_compute in F64.lit 12 10.
Definition ONE : F64.float := Eval vm_compute in F64.of_Z 1.
Definition TEN : F64.float := Eval vm_compute in F64.of_Z 10.
Definition ZERO : F64.float := S754_zero false.

(** ** Recording state machine (main.py, lines 115-151) *)

Inductive RecordingStatus := PENDING | GOING | STOPPING.

Definition RecordingStatus_eqb (a b : RecordingStatus) : bool :=
  match a, b with
  | PENDING, PENDING | GOING, GOING | STOPPING, STOPPING => true
  | _, _ => false
  end.

(** The two [nonlocal] variables captured by the closure. *)
Record RecordingState := mkRec { off_time : Z; started : bool }.

(** [get_recording_status]: the closure starts with [off_time = 0],
    [started = False]. *)
Definition get_recording_status : RecordingState :=
  {| off_time := 0; started := false |}.

(** One call of the closure [recording_status(is_speech)]. *)
Definition recording_status (st : RecordingState) (is_speech : bool)
  : RecordingState * RecordingStatus :=
  if negb (started st) then
    if is_speech then ({| off_time := off_time st; started := true |}, GOING)
    else (st, PENDING)
  else
    let off_time' := if is_speech then 0 else off_time st + CHUNK_MS in
    let st' := {| off_time := off_time'; started := started st |} in
    if off_time' >? MAX_PAUSE_MS then (st', STOPPING) else (st', GOING).

(** [RecordingStatus.X.value] of the enumeration. *)
Definition RecordingStatus_value (s : RecordingStatus) : Z :=
  match s with PENDING => -1 | GOING => 0 | STOPPING => 1 end.

(** ** Energy meter (main.py, lines 217-221) *)

(** A value of [np.int16] and of [np.int64]. *)
Definition is_int16 (x : Z) : Prop := -32768 <= x <= 32767.
Definition wrap64 (z : Z) : Z := (z + 2 ^ 63) mod 2 ^ 64 - 2 ^ 63.

(** [arr.astype(np.int64)]: sign extension, the identity on values. *)
Definition astype_int64 (arr : list Z) : list Z := map wrap64 arr.

(** [a.dot(b)] on [np.int64] vectors: products and running sum are
    64-bit, wrapping around. *)
Definition dot64 (a b : list Z) : Z :=
  fold_left (fun acc xy => wrap64 (acc + wrap64 (fst xy * snd xy)))
            (combine a b) 0.

Section EnergyMeter.

(** [np.log10] on a double is NumPy's, not this repository's: it is a
    parameter of the development. *)
Variable np_log10 : F64.float -> F64.float.

(** [arr.dot(arr) / arr.size]: true division, both operands converted
    to double. *)
Definition power (arr : list Z) : F64.float :=
  let arr := astype_int64 arr in
  (F64.of_Z (dot64 arr arr) / F64.of_Z (Z.of_nat (length arr)))%f64.

Definition sample_decibel_energy (arr : list Z) : F64.float :=
  (np_log10 (power arr) * TEN)%f64.

End EnergyMeter.

(** ** Adaptive classifier (main.py, lines 158-214) *)

Definition adjust_conditionally_on_change
  (original updated adjustment_if_inc adjustment_if_dec : F64.float) : F64.float :=
  let diff := (updated - original)%f64 in
  ((if (diff >? ZERO)%f64 then adjustment_if_inc else adjustment_if_dec) * diff
   + original)%f64.

(** The four [nonlocal] variables of [classify_frame]. *)
Record ClassifierState := mkCls {
  level : option F64.float;
  background : option F64.float;
  foreground : F64.float;
  speaking : bool
}.

Definition get_classify_sample : ClassifierState :=
  {| level := None; background := None; foreground := ZERO; speaking := false |}.

(** The body of [classify_frame] after [current] has been computed
    (lines 173-204); the [print] has no effect on the state. *)
Definition classify_energy (st : ClassifierState) (current : F64.float)
  : ClassifierState * bool :=
  let level0 := match level st with None => current | Some l => l end in
  let background0 := match background st with None => current | Some b => b end in
  let level1 := ((level0 * FORGET_FACTOR + current) / (FORGET_FACTOR + ONE))%f64 in
  (* if speaking: ... *)
  let '(speaking1, background1, foreground1) :=
    if speaking st then
      if ((level1 - background0 <? CONTINUING_THRESHOLD_DB)
          || (level1 - foreground st <? STOPPING_THRESHOLD_DB))%f64
      then (false,
            (if (background0 <? level1)%f64 then background0 else level1),
            foreground st)
      else (true, background0,
            adjust_conditionally_on_change
              (foreground st) level1 STRONG_ADJUSTMENT WEAK_ADJUSTMENT)
    else (false, background0, foreground st) in
  (* if not speaking: ... *)
  let '(speaking2, background2, foreground2) :=
    if negb speaking1 then
      if (level1 - background1 >=? STARTING_THRESHOLD_DB)%f64
      then (true, background1, level1)
      else (false,
            adjust_conditionally_on_change
              background1 level1 WEAK_ADJUSTMENT STRONG_ADJUSTMENT,
            foreground1)
    else (speaking1, background1, foreground1) in
  ({| level := Some level1; background := Some background2;
      foreground := foreground2; speaking := speaking2 |},
   speaking2).

Section Classifier.
Variable np_log10 : F64.float -> F64.float.

Definition classify_frame (st : ClassifierState) (arr : list Z)
  : ClassifierState * bool :=
  classify_energy st (sample_decibel_energy np_log10 arr).
End Classifier.

(** The classifier run over the energies of successive chunks: the final
    state and the decisions, in order. *)
Fixpoint classify_all (st : ClassifierState) (energies : list F64.float)
  : ClassifierState * list bool :=
  match energies with
  | [] => (st, [])
  | c :: rest =>
      let '(st1, d) := classify_energy st c in
      let '(st2, ds) := classify_all st1 rest in
      (st2, d :: ds)
  end.

(** ** Chunk ingestion channel (main.py, lines 76-102) *)

Definition bytes := list Byte.byte.

(** An entry [(in_data, n_frame)] of [audio_queue]. *)
Definition ChannelEntry : Type := bytes * Z.

(** [queue.Queue]: unbounded and first-in first-out. *)
Definition Channel := list ChannelEntry.

Inductive Exn := Empty | AssertionError | ValueError.

Definition put (q : Channel) (e : ChannelEntry) : Channel := q ++ [e].
Definition qsize (q : Channel) : Z := Z.of_nat (length q).

(** [stream_callback]: the producer; a missing payload fails the
    assertion. *)
Definition stream_callback (q : Channel) (in_data : option bytes) (n_frame : Z)
  : Exn + Channel :=
  match in_data with
  | None => inl AssertionError
  | Some d => inr (put q (d, n_frame))
  end.

(** [audio_queue.get(timeout=0.1)].  The producer runs on another
    thread: [arrivals] are the entries it puts until the call returns,
    that is, until the wait of 100 ms is over when the queue was empty.
    With nothing queued and nothing arriving the call raises
    [queue.Empty]; the queue is left as it was. *)
Definition get (q : Channel) (arrivals : list ChannelEntry)
  : Exn + (ChannelEntry * Channel) :=
  match q ++ arrivals with
  | [] => inl Empty
  | e :: q' => inr (e, q')
  end.

(** What the producer does during the consumer's successive channel
    operations: one batch of arrivals per operation, none once the list
    is exhausted. *)
Definition Schedule := list (list ChannelEntry).

Definition next_arrivals (s : Schedule) : list ChannelEntry := hd [] s.

Record Discard := mkDiscard {
  d_chan : Channel;                 (* the channel afterwards *)
  d_retrieved : list ChannelEntry;  (* entries taken by [get] *)
  d_cleared : list ChannelEntry;    (* entries removed by [clear] *)
  d_rest : Schedule;                (* what the producer does later *)
  d_raised : option Exn             (* the exception that ended it *)
}.

(** [for _ in range(n): audio_queue.get(timeout=0.1)] *)
Fixpoint discard_gets (n : nat) (q : Channel) (s : Schedule)
  (got : list ChannelEntry) : Discard :=
  match n with
  | O => mkDiscard q got [] s None
  | S n' =>
      match get q (next_arrivals s) with
      | inl e => mkDiscard q got [] (tl s) (Some e)
      | inr (x, q') => discard_gets n' q' (tl s) (got ++ [x])
      end
  end.

(** [discard_first_at_least(audio_queue, n_discard)] *)
Definition discard_first_at_least (q : Channel) (n_discard : Z) (s : Schedule)
  : Discard :=
  let r :=
    if qsize q <? n_discard
    then discard_gets (Z.to_nat n_discard) q s []
    else mkDiscard q [] [] s None in
  match d_raised r with
  | Some e => r
  | None =>
      (* with audio_queue.mutex: audio_queue.queue.clear() *)
      let q' := d_chan r ++ next_arrivals (d_rest r) in
      mkDiscard [] (d_retrieved r) q' (tl (d_rest r)) None
  end.

Definition N_DISCARD : Z := 5.

(** ** Byte strings and the trimming buffer *)

(** Python's slice [l[start:stop]] with step 1: negative indices count
    from the end and everything is clamped to the length. *)
Definition py_clamp (len i : Z) : Z :=
  if i <? 0 then Z.max 0 (len + i) else Z.min i len.

Definition py_slice {A} (l : list A) (start stop : option Z) : list A :=
  let len := Z.of_nat (length l) in
  let lo := match start with None => 0 | Some i => py_clamp len i end in
  let hi := match stop with None => len | Some j => py_clamp len j end in
  firstn (Z.to_nat (hi - lo)) (skipn (Z.to_nat lo) l).

Definition len {A} (l : list A) : Z := Z.of_nat (length l).

(** One sample of [np.frombuffer(data, dtype=np.int16)], little-endian
    two's complement. *)
Definition int16_of_bytes (lo hi : Byte.byte) : Z :=
  let u := Z.of_N (Byte.to_N lo) + 256 * Z.of_N (Byte.to_N hi) in
  if u <? 32768 then u else u - 65536.

(** [np.frombuffer(data, dtype=np.int16)]: a buffer of odd length raises
    [ValueError]. *)
Fixpoint frombuffer_int16 (data : bytes) : option (list Z) :=
  match data with
  | [] => Some []
  | [_] => None
  | lo :: hi :: rest =>
      option_map (cons (int16_of_bytes lo hi)) (frombuffer_int16 rest)
  end.

(** The case [RecordingStatus.GOING] of the loop (lines 66-69): the new
    buffer and the bytes handed to [out_file.writeframes], if any. *)
Definition going (buffer data : bytes) : bytes * option bytes :=
  let buffer := buffer ++ data in
  if len buffer >? buffer_size
  then (py_slice buffer (Some (- buffer_size)) None,
        Some (py_slice buffer None (Some (- buffer_size))))
  else (buffer, None).

(** ** The processing loop of [main] (lines 54-71) *)

Record LoopState := mkLoop {
  classify_sample : ClassifierState;
  rec_status : RecordingState;
  buffer : bytes;
  out_file : bytes   (* the frames written to the sink so far *)
}.

Inductive Outcome :=
| Running            (* the loop is still going when observation ends *)
| Stopped            (* [break]: the loop is over *)
| Raised (e : Exn).  (* an exception left the loop *)

Record Run := mkRun {
  final : LoopState;
  observed : list (bytes * RecordingStatus);
    (* per iteration: the chunk taken and the status returned *)
  channel : Channel;
  outcome : Outcome
}.

Definition writeframes (out : bytes) (w : option bytes) : bytes :=
  match w with Some b => out ++ b | None => out end.

Section MainLoop.
Variable np_log10 : F64.float -> F64.float.

Fixpoint main_loop (st : LoopState) (q : Channel) (s : Schedule)
  (obs : list (bytes * RecordingStatus)) : Run :=
  match s with
  | [] => mkRun st obs q Running
  | arrivals :: s' =>
      match get q arrivals with
      | inl e => mkRun st obs q (Raised e)
      | inr ((data, _), q') =>
          match frombuffer_int16 data with
          | None => mkRun st obs q' (Raised ValueError)
          | Some audio_array =>
              let '(cls, is_speech) :=
                classify_frame np_log10 (classify_sample st) audio_array in
              let '(rs, status) := recording_status (rec_status st) is_speech in
              let obs' := obs ++ [(data, status)] in
              match status with
              | PENDING =>
                  main_loop (mkLoop cls rs (buffer st) (out_file st)) q' s' obs'
              | GOING =>
                  let '(buffer', w) := going (buffer st) data in
                  main_loop (mkLoop cls rs buffer' (writeframes (out_file st) w))
                            q' s' obs'
              | STOPPING =>
                  mkRun (mkLoop cls rs (buffer st) (out_file st)) obs' q' Stopped
              end
          end
      end
  end.

(** The loop as [main] starts it: fresh closures, empty buffer, empty
    file. *)
Definition initial_loop : LoopState :=
  mkLoop get_classify_sample get_recording_status [] [].

Definition main_run (q : Channel) (s : Schedule) : Run :=
  main_loop initial_loop q s [].

End MainLoop.

(** The part of the loop that concerns the state machine alone: the
    statuses observed when the decisions [ds] are fed to the closure
    one per chunk, the loop leaving at [STOPPING]. *)
Fixpoint observed_statuses (st : RecordingState) (ds : list bool)
  : list RecordingStatus :=
  match ds with
  | [] => []
  | d :: ds' =>
      let '(st', status) := recording_status st d in
      match status with
      | STOPPING => [STOPPING]
      | _ => status :: observed_statuses st' ds'
      end
  end.

(** Number of whole chunks in the maximum pause. *)
Definition PAUSE_CHUNKS : nat := Z.to_nat (MAX_PAUSE_MS / CHUNK_MS).

(** ** Scenarios *)

(** Chunk energies that are [low] for [n0] chunks, [high] for [n1]
    chunks and [low] again for [n2] chunks. *)
Definition energy_steps (low high : F64.float) (n0 n1 n2 : nat)
  : list F64.float :=
  repeat low n0 ++ repeat high n1 ++ repeat low n2.

(** The statuses the loop observes on chunks of the given energies,
    classifier and state machine both fresh. *)
Definition statuses_of_energies (es : list F64.float) : list RecordingStatus :=
  observed_statuses get_recording_status
                    (snd (classify_all get_classify_sample es)).

(** The status sequence leaves [PENDING] for [GOING] at a chunk of index
    in [[lo, hi)]. *)
Definition starts_within (tr : list RecordingStatus) (lo hi : nat) : Prop :=
  exists i, (lo <= i < hi)%nat
            /\ nth_error tr i = Some GOING
            /\ forall j, (j < i)%nat -> nth_error tr j = Some PENDING.

(** [STOPPING] is observed at a chunk of index in [[lo, hi]]. *)
Definition stops_within (tr : list RecordingStatus) (lo hi : nat) : Prop :=
  exists i, (lo <= i <= hi)%nat /\ nth_error tr i = Some STOPPING.

(** Chunks per second. *)
Definition CHUNKS_PER_S : nat := Z.to_nat (1000 / CHUNK_MS).

(** The bytes appended to the trimming buffer: the chunks whose status
    was [GOING], in order. *)
Definition appended (obs : list (bytes * RecordingStatus)) : bytes :=
  concat (map fst (filter (fun p => RecordingStatus_eqb (snd p) GOING) obs)).

(** The invariant of the loop: sink followed by buffer is what was
    appended, the buffer holds at most [buffer_size] bytes, and exactly
    that many once anything was written. *)
Definition loop_inv (st : LoopState) (obs : list (bytes * RecordingStatus)) : Prop :=
  out_file st ++ buffer st = appended obs
  /\ len (buffer st) <= buffer_size
  /\ (out_file st = [] \/ len (buffer st) = buffer_size).

(** ** A session to run *)

(** log10(2), to five places. *)
Definition LOG10_2 : F64.float := Eval vm_compute in F64.lit 30103 100000.

(** A stand-in for [np.log10], good to about 0.3: the position of the
    leading bit times log10(2); minus infinity at 0 and a NaN below 0,
    as [np.log10] has them.  It only serves to run sessions on concrete
    chunks. *)
Definition coarse_log10 (x : F64.float) : F64.float :=
  match x with
  | S754_zero _ => F64.ninf
  | S754_infinity false => F64.pinf
  | S754_finite false m e =>
      if F64.valid x
      then (F64.of_Z (Zdigits2 (Zpos m) + e - 1) * LOG10_2)%f64
      else F64.nan
  | _ => F64.nan
  end.

(** A chunk of [n] samples, all equal to the sample whose two bytes are
    [lo] and [hi]. *)
Definition flat_chunk (n : nat) (lo hi : Byte.byte) : ChannelEntry :=
  (concat (repeat [lo; hi] n), Z.of_nat n).

Definition quiet_chunk : ChannelEntry := flat_chunk 2 Byte.x01 Byte.x00.
Definition loud_chunk : ChannelEntry := flat_chunk 2 Byte.xff Byte.x7f.

(** Two quiet chunks, three loud ones and quiet ones again, all queued
    before the loop starts. *)
Definition demo_channel : Channel :=
  repeat quiet_chunk 2 ++ repeat loud_chunk 3 ++ repeat quiet_chunk 115.

Definition demo_run : Run :=
  main_run coarse_log10 demo_channel (repeat [] 120).

(** ** Reference definitions for the energy meter *)

(** The sum of the squared samples, as a mathematical integer. *)
Definition sum_sq (arr : list Z) : Z :=
  fold_right (fun x acc => x * x + acc) 0 arr.

(** The mean of the squared samples as a double: the exact sum and the
    count, each converted, then divided. *)
Definition mean_square (arr : list Z) : F64.float :=
  (F64.of_Z (sum_sq arr) / F64.of_Z (len arr))%f64.

(** ** Reference definition of the classifier

    The update of section 4.2 of the specification, step by step, to be
    compared with [classify_energy]. *)

(** Step 1: an estimate that is still unset starts at [current]. *)
Definition unset_or (x : option F64.float) (current : F64.float) : F64.float :=
  match x with None => current | Some v => v end.

(** Step 2: the moving average, weighted towards history. *)
Definition smooth (lvl current : F64.float) : F64.float :=
  ((lvl * FORGET_FACTOR + current) / (FORGET_FACTOR + ONE))%f64.

(** The smaller of two energies; on a tie, or when one is a NaN, the
    second. *)
Definition fmin (a b : F64.float) : F64.float :=
  if (a <? b)%f64 then a else b.

(** Move [estimate] towards [lvl] by a fraction of the change:
    [on_increase] when the change is positive, [on_decrease] otherwise. *)
Definition toward (estimate lvl on_increase on_decrease : F64.float)
  : F64.float :=
  let change := (lvl - estimate)%f64 in
  ((if (change >? ZERO)%f64 then on_increase else on_decrease) * change
   + estimate)%f64.

(** Step 3, the test: too close to the noise floor, or too far below the
    speech level. *)
Definition must_stop (lvl bg fg : F64.float) : bool :=
  ((lvl - bg <? CONTINUING_THRESHOLD_DB)
   || (lvl - fg <? STOPPING_THRESHOLD_DB))%f64.

(** Step 4: not speaking, possibly since step 3 of this very chunk. *)
Definition not_speaking_step (lvl bg fg : F64.float) : ClassifierState * bool :=
  if (lvl - bg >=? STARTING_THRESHOLD_DB)%f64
  then (mkCls (Some lvl) (Some bg) lvl true, true)
  else (mkCls (Some lvl)
              (Some (toward bg lvl WEAK_ADJUSTMENT STRONG_ADJUSTMENT))
              fg false,
        false).

(** Steps 1 to 5. *)
Definition classify_reference (st : ClassifierState) (current : F64.float)
  : ClassifierState * bool :=
  let lvl := smooth (unset_or (level st) current) current in
  let bg := unset_or (background st) current in
  let fg := foreground st in
  if speaking st then
    if must_stop lvl bg fg
    then not_speaking_step lvl (fmin bg lvl) fg
    else (mkCls (Some lvl) (Some bg)
                (toward fg lvl STRONG_ADJUSTMENT WEAK_ADJUSTMENT) true,
          true)
  else not_speaking_step lvl bg fg.

(** ** Values of doubles *)

Definition pow2 (e : Z) : Q := (2 ^ e)%Q.

(** The rational number a finite double stands for (0 for the others). *)
Definition B2Q (x : F64.float) : Q :=
  match x with
  | S754_finite s m e => (inject_Z (cond_Zopp s (Zpos m)) * pow2 e)%Q
  | _ => 0%Q
  end.

(** Zeros and finite numbers. *)
Definition finite (x : F64.float) : bool :=
  match x with
  | S754_zero _ | S754_finite _ _ _ => true
  | _ => false
  end.

(** A finite double in canonical form. *)
Definition good (x : F64.float) : Prop :=
  finite x = true /\ F64.valid x = true.

(** What rounding makes of a significand [m3] at exponent [e3]. *)
Definition round_result (s : bool) (m3 e3 : Z) : F64.float :=
  match m3 with
  | Z0 => S754_zero s
  | Zpos p => if e3 <=? F64.emax - F64.prec then S754_finite s p e3
              else S754_infinity s
  | Zneg _ => S754_nan
  end.

(** ** Energies the meter produces

    The decibel energy of a chunk of 16-bit samples is at most
    10 log10(32768^2), about 90.3, and, unless the chunk is all zeros,
    at least -10 log10(N) for a chunk of N samples; an all-zero chunk
    has energy minus infinity.  [meter_energy] covers every double
    that is not finite and every finite one within 4096 of 0. *)
Definition meter_energy (c : F64.float) : Prop :=
  finite c = false
  \/ (good c /\ (- (4096) <= B2Q c <= 4096)%Q).

(** The classifier follows the constant energy [c]: it is not speaking,
    and its level and background are within 2^-30 and 2^-29 of [c]. *)
Definition tracks (c : F64.float) (st : ClassifierState) : Prop :=
  speaking st = false
  /\ exists l b,
       level st = Some l /\ background st = Some b
       /\ good l /\ good b
       /\ (- (1 # 1073741824) <= B2Q l - B2Q c <= 1 # 1073741824)%Q
       /\ (- (1 # 536870912) <= B2Q b - B2Q c <= 1 # 536870912)%Q.

(** ** What is assumed of [np.log10]

    On a double, [np.log10] gives a NaN or an infinity, or else a finite
    double of magnitude at most 324: the doubles range from 4.9e-324 to
    1.8e308. *)
Definition log10_like (f : F64.float -> F64.float) : Prop :=
  forall p,
    finite (f p) = false
    \/ (good (f p) /\ (- (324) <= B2Q (f p) <= 324)%Q).

(** The background estimate is a NaN and the classifier is not
    speaking: it will not speak again. *)
Definition numb (st : ClassifierState) : Prop :=
  speaking st = false /\ background st = Some S754_nan.

(** The state of the classifier after at least one chunk of a sequence
    of chunks of energy [c]. *)
Definition settled (c : F64.float) (st : ClassifierState) : Prop :=
  (good c /\ (- (4096) <= B2Q c <= 4096)%Q /\ tracks c st) \/ numb st.

(** The classifier run over chunks. *)
Definition classify_chunks (np_log10 : F64.float -> F64.float)
  (st : ClassifierState) (chunks : list (list Z))
  : ClassifierState * list bool :=
  classify_all st (map (sample_decibel_energy np_log10) chunks).

(** ** The closure over a whole history *)

(** The state of the closure of [get_recording_status] after it was
    called on the decisions [ds], one after the other (no [break]
    here: the closure is called whatever it returned before). *)
Definition recording_state_after (ds : list bool) : RecordingState :=
  fold_left (fun st d => fst (recording_status st d)) ds get_recording_status.

(** The number of non-speech decisions a history starts with, and the
    number it ends with. *)
Fixpoint silent_run (ds : list bool) : nat :=
  match ds with
  | false :: ds' => S (silent_run ds')
  | _ => 0%nat
  end.

Definition silent_tail (ds : list bool) : nat := silent_run (rev ds).

(** Whether a history holds a speech decision. *)
Definition heard (ds : list bool) : bool := existsb (fun d => d) ds.

(** ** The session of [main] from the warm-up on (lines 51-71) *)

(** Bytes in a chunk as [main] opens the stream (lines 41-48):
    [N_FRAME_PER_CHUNK] frames of [N_CHANNEL] samples of [SIZEOF_FRAME]
    bytes. *)
Definition CHUNK_BYTES : Z := N_FRAME_PER_CHUNK * N_CHANNEL * SIZEOF_FRAME.

(** [discard_first_at_least(audio_queue)] with the default [n_discard],
    then the loop with fresh closures; the loop is not entered when the
    warm-up raised. *)
Definition main_session (np_log10 : F64.float -> F64.float)
  (q : Channel) (s : Schedule) : Discard * option Run :=
  let d := discard_first_at_least q N_DISCARD s in
  match d_raised d with
  | Some _ => (d, None)
  | None => (d, Some (main_run np_log10 (d_chan d) (d_rest d)))
  end.

(** The samples the loop reads from a chunk it processed. *)
Definition chunk_samples (data : bytes) : list Z :=
  match frombuffer_int16 data with
  | Some arr => arr
  | None => []
  end.

(** The decisions of a classifier that starts in state [cs] on the
    chunks of the observations [obs], and those of a fresh one. *)
Definition decisions_from (np_log10 : F64.float -> F64.float)
  (cs : ClassifierState) (obs : list (bytes * RecordingStatus)) : list bool :=
  snd (classify_chunks np_log10 cs (map (fun p => chunk_samples (fst p)) obs)).

Definition run_decisions (np_log10 : F64.float -> F64.float)
  (obs : list (bytes * RecordingStatus)) : list bool :=
  decisions_from np_log10 get_classify_sample obs.

(** ** A session with chunks of full size *)

(** Chunks of [N_FRAME_PER_CHUNK] frames, as the stream delivers them. *)
Definition quiet_frames : ChannelEntry :=
  flat_chunk (Z.to_nat N_FRAME_PER_CHUNK) Byte.x01 Byte.x00.
Definition loud_frames : ChannelEntry :=
  flat_chunk (Z.to_nat N_FRAME_PER_CHUNK) Byte.xff Byte.x7f.

(** Two quiet chunks, three loud ones and quiet ones again, all queued
    before the loop starts. *)
Definition full_channel : Channel :=
  repeat quiet_frames 2 ++ repeat loud_frames 3 ++ repeat quiet_frames 115.

(** Whether a status sequence holds [STOPPING]. *)
Definition stops (tr : list RecordingStatus) : bool :=
  existsb (RecordingStatus_eqb STOPPING) tr.

(** ** The estimates of the classifier *)

(** A finite double of magnitude at most [b]. *)
Definition within (b : Q) (x : F64.float) : Prop :=
  good x /\ (- b <= B2Q x <= b)%Q.

Definition unset_or_within (b : Q) (x : option F64.float) : Prop :=
  match x with
  | None => True
  | Some v => within b v
  end.

(** The estimates that are set are finite and of moderate size. *)
Definition calm (st : ClassifierState) : Prop :=
  unset_or_within 4097 (level st)
  /\ unset_or_within 4098 (background st)
  /\ within 4098 (foreground st).

(** The same with level and background set, as they are after the first
    chunk. *)
Definition steady (st : ClassifierState) : Prop :=
  exists l b,
    level st = Some l /\ background st = Some b
    /\ within 4097 l /\ within 4098 b /\ within 4098 (foreground st).

(** ** Energies that are not finite *)

(** The classifier will not report speech again: it is not speaking,
    and its background is a NaN, or background and level are both minus
    infinity (the background is a NaN one chunk later). *)
Definition muted (st : ClassifierState) : Prop :=
  speaking st = false
  /\ (background st = Some S754_nan
      \/ (background st = Some F64.ninf /\ level st = Some F64.ninf)).

(** The classifier will report speech for ever: it is speaking and its
    level is a NaN. *)
Definition latched (st : ClassifierState) : Prop :=
  speaking st = true /\ level st = Some S754_nan.

(* ================================================================= *)
(** * Properties *)

(** ** The recording state machine *)

Section RecordingFacts.

Lemma recording_status_started st d :
  started st = true ->
  started (fst (recording_status st d)) = true
  /\ snd (recording_status st d) <> PENDING.
Proof.
  intros H. unfold recording_status. rewrite H. simpl.
  destruct (_ >? _); simpl; split; auto; discriminate.
Qed.

Lemma recording_status_pending st :
  started st = false -> recording_status st false = (st, PENDING).
Proof. intros H. unfold recording_status. now rewrite H. Qed.

Lemma recording_status_start st :
  started st = false ->
  recording_status st true = (mkRec (off_time st) true, GOING).
Proof. intros H. unfold recording_status. now rewrite H. Qed.

(** Once started, the loop sees [GOING] until it possibly sees one
    final [STOPPING]. *)
Lemma going_phase ds : forall st,
  started st = true ->
  exists b s,
    observed_statuses st ds = repeat GOING b ++ s
    /\ (s = [] \/ s = [STOPPING]).
Proof.
  induction ds as [|d ds IH]; intros st Hst; simpl.
  - exists 0%nat, []. auto.
  - destruct (recording_status st d) as [st' status] eqn:E.
    destruct (recording_status_started st d Hst) as [Hs Hp].
    rewrite E in Hs, Hp. simpl in Hs, Hp.
    destruct status.
    + congruence.
    + destruct (IH st' Hs) as (b & s & -> & Hs').
      exists (S b), s. auto.
    + exists 0%nat, [STOPPING]. auto.
Qed.

Lemma status_shape ds : forall st,
  started st = false ->
  exists a b s,
    observed_statuses st ds = repeat PENDING a ++ repeat GOING b ++ s
    /\ (s = [] \/ (s = [STOPPING] /\ (1 <= b)%nat)).
Proof.
  induction ds as [|d ds IH]; intros st Hst; simpl.
  - exists 0%nat, 0%nat, []. auto.
  - destruct d.
    + rewrite (recording_status_start st Hst).
      destruct (going_phase ds (mkRec (off_time st) true) eq_refl)
        as (b & s & -> & Hs).
      exists 0%nat, (S b), s. split; [reflexivity|].
      destruct Hs; [left|right]; auto. split; auto. lia.
    + rewrite (recording_status_pending st Hst).
      destruct (IH st Hst) as (a & b & s & -> & Hs).
      exists (S a), b, s. auto.
Qed.

Lemma observed_statuses_length ds : forall st,
  (length (observed_statuses st ds) <= length ds)%nat.
Proof.
  induction ds as [|d ds IH]; intros st; simpl; [lia|].
  destruct (recording_status st d) as [st' [| |]]; simpl;
    try (specialize (IH st')); lia.
Qed.

(** While not started, silence is [PENDING] and changes nothing. *)
Lemma observed_pending n : forall st rest,
  started st = false ->
  observed_statuses st (repeat false n ++ rest)
  = repeat PENDING n ++ observed_statuses st rest.
Proof.
  induction n as [|n IH]; intros st rest Hst; simpl; [reflexivity|].
  rewrite (recording_status_pending st Hst). f_equal. now apply IH.
Qed.

(** Speech after the start: [GOING], and the timer is back at 0. *)
Lemma observed_speech_1 t rest :
  observed_statuses (mkRec t true) (true :: rest)
  = GOING :: observed_statuses (mkRec 0 true) rest.
Proof. reflexivity. Qed.

Lemma observed_speech n : forall t rest,
  observed_statuses (mkRec t true) (repeat true (S n) ++ rest)
  = repeat GOING (S n) ++ observed_statuses (mkRec 0 true) rest.
Proof.
  induction n as [|n IH]; intros t rest.
  - apply observed_speech_1.
  - change (repeat true (S (S n)) ++ rest)
      with (true :: (repeat true (S n) ++ rest)).
    rewrite observed_speech_1, IH. reflexivity.
Qed.

(** Silence after the start, [r] chunks before the pause is used up:
    [r] more chunks are [GOING], the next one is [STOPPING]. *)
Lemma observed_silence n : forall (r : nat),
  (r <= PAUSE_CHUNKS)%nat ->
  observed_statuses (mkRec (MAX_PAUSE_MS - CHUNK_MS * Z.of_nat r) true)
                    (repeat false n)
  = repeat GOING (Nat.min n r)
    ++ (if (r <? n)%nat then [STOPPING] else []).
Proof.
  induction n as [|n IH]; intros r Hr.
  - reflexivity.
  - cbn [repeat observed_statuses]. unfold recording_status. cbn [started off_time negb].
    destruct r as [|r].
    + replace (MAX_PAUSE_MS - CHUNK_MS * Z.of_nat 0 + CHUNK_MS >? MAX_PAUSE_MS)
        with true by (unfold MAX_PAUSE_MS, CHUNK_MS; symmetry; apply Z.gtb_lt; lia).
      reflexivity.
    + replace (MAX_PAUSE_MS - CHUNK_MS * Z.of_nat (S r) + CHUNK_MS >? MAX_PAUSE_MS)
        with false
        by (unfold MAX_PAUSE_MS, CHUNK_MS; symmetry; rewrite Z.gtb_ltb; apply Z.ltb_ge; lia).
      replace (MAX_PAUSE_MS - CHUNK_MS * Z.of_nat (S r) + CHUNK_MS)
        with (MAX_PAUSE_MS - CHUNK_MS * Z.of_nat r) by lia.
      rewrite IH by lia. reflexivity.
Qed.

End RecordingFacts.

(** C1: whatever decisions are fed to the state machine, the statuses
    the loop observes are [PENDING] zero or more times, then [GOING],
    then at most one [STOPPING], which is last: nothing is processed,
    and no [GOING] is seen, after it. *)
Theorem C1_status_sequence (ds : list bool) :
  exists (a b : nat) (s : list RecordingStatus),
    observed_statuses get_recording_status ds
    = repeat PENDING a ++ repeat GOING b ++ s
    /\ (s = [] \/ (s = [STOPPING] /\ (1 <= b)%nat))
    /\ (length (observed_statuses get_recording_status ds) <= length ds)%nat.
Proof.
  destruct (status_shape ds get_recording_status eq_refl)
    as (a & b & s & E & Hs).
  exists a, b, s. split; [exact E|]. split; [exact Hs|].
  apply observed_statuses_length.
Qed.

(** The statuses of a run of [main]'s loop are those of
    [observed_statuses] on the decisions the classifier took. *)
Lemma main_loop_statuses np_log10 s : forall st q obs,
  exists ds,
    map snd (observed (main_loop np_log10 st q s obs))
    = map snd obs ++ observed_statuses (rec_status st) ds.
Proof.
  induction s as [|arrivals s IH]; intros st q obs; cbn [main_loop].
  - exists []. cbn. now rewrite app_nil_r.
  - destruct (get q arrivals) as [e|[[data n] q']].
    { exists []. cbn. now rewrite app_nil_r. }
    destruct (frombuffer_int16 data) as [arr|].
    2:{ exists []. cbn. now rewrite app_nil_r. }
    destruct (classify_frame np_log10 (classify_sample st) arr)
      as [cls is_speech].
    destruct (recording_status (rec_status st) is_speech) as [rs status] eqn:R.
    destruct status.
    + destruct (IH (mkLoop cls rs (buffer st) (out_file st)) q'
                   (obs ++ [(data, PENDING)])) as (ds & ->).
      exists (is_speech :: ds). cbn [observed_statuses]. rewrite R.
      rewrite map_app, <- app_assoc. reflexivity.
    + destruct (going (buffer st) data) as [b' w].
      destruct (IH (mkLoop cls rs b' (writeframes (out_file st) w)) q'
                   (obs ++ [(data, GOING)])) as (ds & ->).
      exists (is_speech :: ds). cbn [observed_statuses]. rewrite R.
      rewrite map_app, <- app_assoc. reflexivity.
    + exists [is_speech]. cbn [observed observed_statuses]. rewrite R.
      now rewrite map_app.
Qed.

(** So every run of the loop shows [PENDING]s, then [GOING]s, then at
    most one final [STOPPING]. *)
Lemma main_run_status_shape np_log10 q s :
  exists (a b : nat) (t : list RecordingStatus),
    map snd (observed (main_run np_log10 q s))
    = repeat PENDING a ++ repeat GOING b ++ t
    /\ (t = [] \/ (t = [STOPPING] /\ (1 <= b)%nat)).
Proof.
  destruct (main_loop_statuses np_log10 s (initial_loop) q []) as (ds & E).
  unfold main_run. rewrite E. cbn [map app rec_status initial_loop].
  apply status_shape. reflexivity.
Qed.

(** ** The step scenario *)

(** A step of exactly the starting threshold is never classified as
    speech: the smoothed level approaches the step from below while the
    background creeps up, so the recorder stays [PENDING]. *)
Lemma statuses_step_15 :
  statuses_of_energies
    (energy_steps (F64.of_Z 30) (F64.of_Z 45)
                  (3 * CHUNKS_PER_S) CHUNKS_PER_S (3 * CHUNKS_PER_S))
  = repeat PENDING 350.
Proof. vm_compute. reflexivity. Qed.

(** C4, as stated, fails: three seconds at 30 dB, one second at 45 dB
    (15 dB above the background, which is the starting threshold), then
    30 dB again; the recorder never leaves [PENDING]. *)
Lemma C4_counterexample :
  (F64.of_Z 45 - F64.of_Z 30 >=? STARTING_THRESHOLD_DB)%f64 = true
  /\ ~ starts_within
         (statuses_of_energies
            (energy_steps (F64.of_Z 30) (F64.of_Z 45)
                          (3 * CHUNKS_PER_S) CHUNKS_PER_S (3 * CHUNKS_PER_S)))
         (3 * CHUNKS_PER_S) (4 * CHUNKS_PER_S).
Proof.
  split; [vm_compute; reflexivity|].
  rewrite statuses_step_15. intros (i & _ & Hi & _).
  apply nth_error_In, repeat_spec in Hi. discriminate.
Qed.

(** With a step of 30 dB the recorder does start inside the loud second
    (at chunk 151), but the classifier still reports speech on the first
    quiet chunk, so [STOPPING] comes at chunk 301, the 102nd quiet chunk:
    2040 ms after the loud second ended. *)
Remark statuses_step_30 :
  statuses_of_energies
    (energy_steps (F64.of_Z 30) (F64.of_Z 60)
                  (3 * CHUNKS_PER_S) CHUNKS_PER_S (3 * CHUNKS_PER_S))
  = repeat PENDING 151 ++ repeat GOING 150 ++ [STOPPING].
Proof. vm_compute. reflexivity. Qed.

Remark step_30_stops_late :
  ~ stops_within
      (statuses_of_energies
         (energy_steps (F64.of_Z 30) (F64.of_Z 60)
                       (3 * CHUNKS_PER_S) CHUNKS_PER_S (3 * CHUNKS_PER_S)))
      (4 * CHUNKS_PER_S + PAUSE_CHUNKS - 1)
      (4 * CHUNKS_PER_S + PAUSE_CHUNKS).
Proof.
  rewrite statuses_step_30. intros (i & Hi & E).
  change (4 * CHUNKS_PER_S + PAUSE_CHUNKS)%nat with 300%nat in Hi.
  assert (i = 299 \/ i = 300)%nat as [-> | ->] by lia; vm_compute in E; discriminate.
Qed.

(** C4, amended: in terms of the classifier's decisions.  Non-speech for
    [n0] chunks, speech for [n1 >= 1] chunks, then non-speech for [n2]
    chunks: the status is [PENDING] on the first [n0] chunks, [GOING]
    from the first speech chunk through the first [PAUSE_CHUNKS]
    non-speech chunks that follow the speech, and [STOPPING] on the next
    one, that is, once more than [MAX_PAUSE_MS] and at most
    [MAX_PAUSE_MS + CHUNK_MS] of non-speech have been processed. *)
Theorem C4_decision_steps (n0 n1 n2 : nat) :
  (1 <= n1)%nat ->
  observed_statuses get_recording_status
                    (repeat false n0 ++ repeat true n1 ++ repeat false n2)
  = repeat PENDING n0
    ++ repeat GOING (n1 + Nat.min n2 PAUSE_CHUNKS)
    ++ (if (PAUSE_CHUNKS <? n2)%nat then [STOPPING] else []).
Proof.
  intros H1. destruct n1 as [|n1]; [lia|].
  rewrite observed_pending by reflexivity. f_equal.
  change (repeat true (S n1) ++ repeat false n2)
    with (true :: (repeat true n1 ++ repeat false n2)).
  cbn [observed_statuses]. rewrite recording_status_start by reflexivity.
  cbn [off_time get_recording_status].
  assert (E : observed_statuses (mkRec 0 true) (repeat true n1 ++ repeat false n2)
              = repeat GOING n1 ++ observed_statuses (mkRec 0 true) (repeat false n2)).
  { destruct n1; [reflexivity|]. apply observed_speech. }
  rewrite E.
  change (mkRec 0 true)
    with (mkRec (MAX_PAUSE_MS - CHUNK_MS * Z.of_nat PAUSE_CHUNKS) true).
  rewrite observed_silence by lia.
  rewrite repeat_app, <- app_assoc. reflexivity.
Qed.

Lemma C4_decision_steps_witness :
  observed_statuses get_recording_status
                    (repeat false 3 ++ repeat true 2 ++ repeat false 101)
  = repeat PENDING 3 ++ repeat GOING 102 ++ [STOPPING].
Proof. apply (C4_decision_steps 3 2 101). lia. Defined.

(** ** The trimming buffer *)

Section BufferFacts.

Lemma buffer_size_pos : 0 < buffer_size.
Proof. reflexivity. Qed.

Lemma len_app {A} (l1 l2 : list A) : len (l1 ++ l2) = len l1 + len l2.
Proof. unfold len. rewrite length_app. lia. Qed.

Lemma len_nonneg {A} (l : list A) : 0 <= len l.
Proof. unfold len. lia. Qed.

(** [l[-n:]] and [l[:-n]] for [0 < n <= len(l)]. *)
Lemma py_slice_tail {A} (l : list A) n :
  0 < n <= len l ->
  py_slice l (Some (- n)) None = skipn (Z.to_nat (len l - n)) l.
Proof.
  intros H. unfold py_slice, py_clamp. fold (len l).
  replace (- n <? 0) with true by (symmetry; apply Z.ltb_lt; lia).
  rewrite Z.max_r by lia.
  apply firstn_all2. rewrite length_skipn. unfold len in *. lia.
Qed.

Lemma py_slice_front {A} (l : list A) n :
  0 < n <= len l ->
  py_slice l None (Some (- n)) = firstn (Z.to_nat (len l - n)) l.
Proof.
  intros H. unfold py_slice, py_clamp. fold (len l).
  replace (- n <? 0) with true by (symmetry; apply Z.ltb_lt; lia).
  rewrite Z.max_r by lia. rewrite Z.sub_0_r. reflexivity.
Qed.

Lemma going_flush b d :
  buffer_size < len (b ++ d) ->
  going b d
  = (skipn (Z.to_nat (len (b ++ d) - buffer_size)) (b ++ d),
     Some (firstn (Z.to_nat (len (b ++ d) - buffer_size)) (b ++ d))).
Proof.
  intros H. unfold going.
  replace (len (b ++ d) >? buffer_size) with true
    by (symmetry; apply Z.gtb_lt; lia).
  pose proof buffer_size_pos.
  rewrite py_slice_tail, py_slice_front by lia. reflexivity.
Qed.

Lemma going_keep b d :
  len (b ++ d) <= buffer_size -> going b d = (b ++ d, None).
Proof.
  intros H. unfold going.
  replace (len (b ++ d) >? buffer_size) with false
    by (symmetry; rewrite Z.gtb_ltb; apply Z.ltb_ge; lia).
  reflexivity.
Qed.

(** What one [GOING] iteration does to buffer and sink. *)
Lemma going_spec b d :
  let '(b', w) := going b d in
  match w with
  | Some w =>
      buffer_size < len (b ++ d)
      /\ w ++ b' = b ++ d
      /\ len w = len (b ++ d) - buffer_size
      /\ len b' = buffer_size
  | None => len (b ++ d) <= buffer_size /\ b' = b ++ d
  end.
Proof.
  destruct (Z.le_gt_cases (len (b ++ d)) buffer_size) as [H|H].
  - rewrite going_keep by exact H. auto.
  - rewrite going_flush by exact H. pose proof buffer_size_pos.
    split; [exact H|]. split; [apply firstn_skipn|].
    unfold len in *. rewrite length_firstn, length_skipn. lia.
Qed.

Lemma appended_snoc obs data status :
  appended (obs ++ [(data, status)])
  = appended obs ++ (if RecordingStatus_eqb status GOING then data else []).
Proof.
  unfold appended. rewrite filter_app, map_app, concat_app. cbn.
  destruct (RecordingStatus_eqb status GOING); cbn; now rewrite ?app_nil_r.
Qed.

Lemma loop_inv_going cls rs st obs data :
  loop_inv st obs ->
  loop_inv (mkLoop cls rs (fst (going (buffer st) data))
                   (writeframes (out_file st) (snd (going (buffer st) data))))
           (obs ++ [(data, GOING)]).
Proof.
  intros (E & Hle & Hfull). unfold loop_inv. cbn [out_file buffer].
  rewrite appended_snoc. cbn [RecordingStatus_eqb].
  pose proof (going_spec (buffer st) data) as G.
  destruct (going (buffer st) data) as [b' [w|]]; cbn [fst snd writeframes].
  - destruct G as (_ & G1 & _ & G3).
    rewrite <- app_assoc, G1, app_assoc, E. repeat split; auto; lia.
  - destruct G as (G1 & ->).
    rewrite app_assoc, E. repeat split; auto.
    destruct Hfull as [Hf|Hf]; [now left|right].
    rewrite len_app in *. pose proof (len_nonneg data). lia.
Qed.

Lemma loop_inv_other cls rs st obs data status :
  status <> GOING ->
  loop_inv st obs ->
  loop_inv (mkLoop cls rs (buffer st) (out_file st)) (obs ++ [(data, status)]).
Proof.
  intros Hs (E & Hle & Hfull). unfold loop_inv. cbn [out_file buffer].
  rewrite appended_snoc.
  destruct status; try congruence; cbn; rewrite app_nil_r; auto.
Qed.

Variable np_log10 : F64.float -> F64.float.

Lemma main_loop_inv s : forall st q obs,
  loop_inv st obs ->
  loop_inv (final (main_loop np_log10 st q s obs))
           (observed (main_loop np_log10 st q s obs)).
Proof.
  induction s as [|arrivals s IH]; intros st q obs Hinv; cbn [main_loop].
  - exact Hinv.
  - destruct (get q arrivals) as [e|[[data n] q']]; [exact Hinv|].
    destruct (frombuffer_int16 data) as [arr|]; [|exact Hinv].
    destruct (classify_frame _ _ _) as [cls is_speech].
    destruct (recording_status _ _) as [rs status].
    destruct status.
    + apply IH, loop_inv_other; [discriminate|exact Hinv].
    + pose proof (loop_inv_going cls rs st obs data Hinv) as H.
      destruct (going (buffer st) data) as [b' w]. apply IH, H.
    + cbn [final observed]. apply loop_inv_other; [discriminate|exact Hinv].
Qed.

Lemma initial_loop_inv : loop_inv initial_loop [].
Proof. unfold loop_inv. cbn. repeat split; auto. pose proof buffer_size_pos. lia. Qed.

Lemma main_run_inv q s :
  loop_inv (final (main_run np_log10 q s)) (observed (main_run np_log10 q s)).
Proof. apply main_loop_inv, initial_loop_inv. Qed.

(** The loop leaves by [break] exactly when the last status it saw is
    [STOPPING]. *)
Lemma main_loop_stopped s : forall st q obs,
  outcome (main_loop np_log10 st q s obs) = Stopped ->
  exists obs' data,
    observed (main_loop np_log10 st q s obs) = obs' ++ [(data, STOPPING)].
Proof.
  induction s as [|arrivals s IH]; intros st q obs; cbn [main_loop].
  - discriminate.
  - destruct (get q arrivals) as [e|[[data n] q']]; [discriminate|].
    destruct (frombuffer_int16 data) as [arr|]; [|discriminate].
    destruct (classify_frame _ _ _) as [cls is_speech].
    destruct (recording_status _ _) as [rs status].
    destruct status.
    + apply IH.
    + destruct (going (buffer st) data) as [b' w]. apply IH.
    + intros _. cbn [observed]. eauto.
Qed.

End BufferFacts.

(** C2: when the loop reaches [STOPPING], the sink holds the bytes
    appended to the buffer but for the last [buffer_size] of them
    (nothing when fewer were appended); those stay in the buffer and are
    not written. *)
Theorem C2_written_at_stopping
  (np_log10 : F64.float -> F64.float) (q : Channel) (s : Schedule) :
  let r := main_run np_log10 q s in
  outcome r = Stopped ->
  (exists obs data, observed r = obs ++ [(data, STOPPING)])
  /\ len (out_file (final r)) = Z.max 0 (len (appended (observed r)) - buffer_size)
  /\ len (buffer (final r)) = Z.min buffer_size (len (appended (observed r)))
  /\ out_file (final r) ++ buffer (final r) = appended (observed r).
Proof.
  intros r Hstop. split; [apply main_loop_stopped, Hstop|].
  destruct (main_run_inv np_log10 q s) as (E & Hle & Hfull). fold r in E, Hle, Hfull.
  rewrite <- E, len_app.
  pose proof (len_nonneg (out_file (final r))).
  pose proof (len_nonneg (buffer (final r))).
  destruct Hfull as [Hf|Hf].
  - rewrite Hf in *. cbn [len length Z.of_nat app] in *. repeat split; lia.
  - repeat split; lia.
Qed.

Lemma C2_written_at_stopping_witness :
  outcome demo_run = Stopped
  /\ len (appended (observed demo_run)) = 420
  /\ len (out_file (final demo_run)) = 0
  /\ len (buffer (final demo_run)) = 420.
Proof.
  pose proof (C2_written_at_stopping coarse_log10 demo_channel (repeat [] 120)) as T.
  cbv zeta in T. unfold demo_run.
  set (r := main_run coarse_log10 demo_channel (repeat [] 120)) in *.
  assert (H : outcome r = Stopped /\ len (appended (observed r)) = 420)
    by (vm_compute; split; reflexivity).
  destruct H as [H1 H2].
  destruct (T H1) as (_ & H3 & H4 & _).
  rewrite H2 in H3, H4.
  change (Z.max 0 (420 - buffer_size)) with 0 in H3.
  change (Z.min buffer_size 420) with 420 in H4.
  exact (conj H1 (conj H2 (conj H3 H4))).
Defined.

(** C6: at every check of the buffer's length the buffer holds at most
    [buffer_size] bytes more than the chunk just appended; a flush
    writes the leading [len(buffer) - buffer_size] bytes, removes them
    and leaves [buffer_size] bytes.  The state is that of any run of the
    loop, the chunk any chunk that comes next. *)
Theorem C6_buffer_bound_and_flush
  (np_log10 : F64.float -> F64.float) (q : Channel) (s : Schedule) (data : bytes) :
  let b := buffer (final (main_run np_log10 q s)) in
  len (b ++ data) <= buffer_size + len data
  /\ match going b data with
     | (b', Some w) =>
         buffer_size < len (b ++ data)
         /\ w = firstn (Z.to_nat (len (b ++ data) - buffer_size)) (b ++ data)
         /\ b' = skipn (Z.to_nat (len (b ++ data) - buffer_size)) (b ++ data)
         /\ len w = len (b ++ data) - buffer_size
         /\ len b' = buffer_size
     | (b', None) => len (b ++ data) <= buffer_size /\ b' = b ++ data
     end.
Proof.
  intros b. destruct (main_run_inv np_log10 q s) as (_ & Hle & _). fold b in Hle.
  split; [rewrite len_app; lia|].
  pose proof (going_spec b data) as G.
  destruct (Z.le_gt_cases (len (b ++ data)) buffer_size) as [H|H].
  - rewrite going_keep in * by exact H. exact G.
  - rewrite going_flush in * by exact H.
    destruct G as (G0 & _ & G2 & G3). auto.
Qed.

(** ** The ingestion channel *)

Section ChannelFacts.

Lemma get_timeout q arrivals e :
  get q arrivals = inl e -> e = Empty /\ q = [] /\ arrivals = [].
Proof.
  unfold get. destruct (q ++ arrivals) eqn:E; [|discriminate].
  apply app_eq_nil in E. intros [= <-]. tauto.
Qed.

Lemma get_some q arrivals x q' :
  get q arrivals = inr (x, q') -> q ++ arrivals = x :: q'.
Proof.
  unfold get. destruct (q ++ arrivals); [discriminate|]. now intros [= -> ->].
Qed.

(** Whatever [discard_gets] took or left was queued or arrived. *)
Lemma discard_gets_content n : forall q s got,
  exists later,
    d_retrieved (discard_gets n q s got) ++ d_chan (discard_gets n q s got)
    = got ++ q ++ later.
Proof.
  induction n as [|n IH]; intros q s got; cbn [discard_gets].
  - exists []. cbn. now rewrite app_nil_r.
  - destruct (get q (next_arrivals s)) as [e|[x q']] eqn:G.
    + exists []. cbn. now rewrite app_nil_r.
    + destruct (IH q' (tl s) (got ++ [x])) as (later & ->).
      apply get_some in G. exists (next_arrivals s ++ later).
      rewrite <- app_assoc. cbn [app]. rewrite (app_assoc q), G. reflexivity.
Qed.

Lemma discard_gets_count n : forall q s got,
  d_raised (discard_gets n q s got) = None ->
  length (d_retrieved (discard_gets n q s got)) = (length got + n)%nat
  /\ d_cleared (discard_gets n q s got) = [].
Proof.
  induction n as [|n IH]; intros q s got; cbn [discard_gets].
  - cbn. intros _. split; [lia|reflexivity].
  - destruct (get q (next_arrivals s)) as [e|[x q']]; [discriminate|].
    intros H. destruct (IH _ _ _ H) as [-> ->]. rewrite length_app. cbn. split; [lia|reflexivity].
Qed.

(** Without a producer, the retrievals drain what is queued and the
    first one that finds the channel empty raises [Empty]. *)
Lemma discard_gets_alone n : forall q got,
  (length q < n)%nat ->
  discard_gets n q [] got = mkDiscard [] (got ++ q) [] [] (Some Empty).
Proof.
  induction n as [|n IH]; intros q got H; [lia|].
  cbn [discard_gets next_arrivals hd tl]. unfold get. rewrite app_nil_r.
  destruct q as [|x q].
  - now rewrite app_nil_r.
  - cbn in H. rewrite IH by lia. now rewrite <- app_assoc.
Qed.

End ChannelFacts.

(** C7, as stated, fails: a retrieval that times out raises
    [queue.Empty], nothing catches it, and the loop is over; the chunk
    that arrives next is never processed. *)
Lemma C7_counterexample :
  get [] [] = inl Empty
  /\ outcome (main_run coarse_log10 [] [[]; [quiet_chunk]]) = Raised Empty
  /\ observed (main_run coarse_log10 [] [[]; [quiet_chunk]]) = []
  /\ d_raised (discard_first_at_least [] N_DISCARD []) = Some Empty.
Proof. repeat split. Qed.

(** C7, amended: a retrieval times out only on an empty channel with
    nothing arriving, and it then raises [Empty]: the processing loop
    ends with that exception, its state as it was, and so does the
    warm-up's retrieval loop.  The channel is left as it was, so the
    timeout drops no queued entry. *)
Theorem C7_timeout_raises
  (np_log10 : F64.float -> F64.float) (st : LoopState) (q : Channel)
  (arrivals : list ChannelEntry) (s : Schedule)
  (obs : list (bytes * RecordingStatus)) (e : Exn) :
  get q arrivals = inl e ->
  e = Empty /\ q = [] /\ arrivals = []
  /\ main_loop np_log10 st q (arrivals :: s) obs = mkRun st obs q (Raised Empty)
  /\ forall n got,
       discard_gets (S n) q (arrivals :: s) got = mkDiscard q got [] s (Some Empty).
Proof.
  intros G. destruct (get_timeout _ _ _ G) as (-> & -> & ->).
  repeat split; reflexivity.
Qed.

Lemma C7_timeout_raises_witness :
  main_loop coarse_log10 (initial_loop) [] [[]; [quiet_chunk]] []
  = mkRun initial_loop [] [] (Raised Empty).
Proof.
  apply (C7_timeout_raises coarse_log10 initial_loop [] [] [[quiet_chunk]] [] Empty).
  reflexivity.
Defined.

(** C8, as stated, fails when fewer than [n_discard] entries are queued:
    the warm-up then retrieves [n_discard] entries, waiting for those
    still to come.  With two entries queued and no producer the third
    retrieval raises [Empty] and the warm-up does not complete; with a
    producer it completes having taken three later entries as well. *)
Lemma C8_counterexample :
  let q := [quiet_chunk; quiet_chunk] in
  let alone := discard_first_at_least q N_DISCARD [] in
  let fed := discard_first_at_least q N_DISCARD
               [[]; []; [loud_chunk]; [loud_chunk]; [loud_chunk]] in
  qsize q < N_DISCARD
  /\ d_raised alone = Some Empty
  /\ d_raised fed = None
  /\ d_retrieved fed = q ++ [loud_chunk; loud_chunk; loud_chunk]
  /\ d_retrieved fed <> q.
Proof.
  cbv zeta. repeat split. intros H.
  apply (f_equal (@length _)) in H. discriminate H.
Qed.

(** C8, amended.  When the warm-up completes the channel is empty.  With
    at least [n_discard] entries queued nothing is retrieved and the
    clear drops what is queued (all of it and no more when no producer
    is active).  With fewer, the warm-up makes [n_discard] retrievals:
    if it completes it has dropped the entries queued at the start and,
    after them, entries that arrived later; without a producer it drains
    the entries that were available, leaves the channel empty and raises
    [Empty]. *)
Theorem C8_warm_up (q : Channel) (n_discard : Z) (s : Schedule) :
  let r := discard_first_at_least q n_discard s in
  (d_raised r = None -> d_chan r = [])
  /\ (n_discard <= qsize q ->
      d_raised r = None /\ d_retrieved r = []
      /\ d_cleared r = q ++ next_arrivals s)
  /\ (qsize q < n_discard -> d_raised r = None ->
      len (d_retrieved r) = n_discard
      /\ exists later, later <> []
                       /\ d_retrieved r ++ d_cleared r = q ++ later)
  /\ (qsize q < n_discard -> s = [] ->
      d_raised r = Some Empty /\ d_retrieved r = q /\ d_chan r = []).
Proof.
  cbv zeta. unfold discard_first_at_least.
  destruct (qsize q <? n_discard) eqn:C.
  - apply Z.ltb_lt in C.
    assert (Hn : (length q < Z.to_nat n_discard)%nat) by (unfold qsize in C; lia).
    destruct (d_raised (discard_gets (Z.to_nat n_discard) q s [])) eqn:R.
    + rewrite R. split; [discriminate|]. split; [lia|]. split; [congruence|].
      intros _ ->. rewrite discard_gets_alone in R |- * by exact Hn.
      cbn in R |- *. injection R as <-. auto.
    + cbn [d_raised d_chan d_retrieved d_cleared d_rest].
      destruct (discard_gets_count _ _ _ _ R) as [L _].
      destruct (discard_gets_content (Z.to_nat n_discard) q s []) as (later & E).
      cbn [app length] in L, E.
      split; [reflexivity|]. split; [lia|]. split.
      * intros _ _. unfold len. split; [lia|].
        exists (later ++ next_arrivals
                           (d_rest (discard_gets (Z.to_nat n_discard) q s []))).
        rewrite !app_assoc, E, <- !app_assoc. split; [|reflexivity].
        intros H. apply app_eq_nil in H. destruct H as [-> _].
        rewrite app_nil_r in E. apply (f_equal (@length _)) in E.
        rewrite length_app in E. lia.
      * intros _ ->. rewrite discard_gets_alone in R by exact Hn. discriminate.
  - apply Z.ltb_ge in C. cbn [d_raised d_chan d_retrieved d_cleared d_rest].
    repeat split; try lia.
Qed.

(** ** The energy meter *)

Section MeterFacts.

Lemma wrap64_small z : - 2 ^ 63 <= z < 2 ^ 63 -> wrap64 z = z.
Proof. intros H. unfold wrap64. rewrite Z.mod_small; lia. Qed.

Lemma wrap64_add_r a b : wrap64 (a + wrap64 b) = wrap64 (a + b).
Proof.
  unfold wrap64. f_equal.
  replace (a + ((b + 2 ^ 63) mod 2 ^ 64 - 2 ^ 63) + 2 ^ 63)
    with (a + (b + 2 ^ 63) mod 2 ^ 64) by lia.
  rewrite Zplus_mod_idemp_r. f_equal. lia.
Qed.

Lemma wrap64_add_l a b : wrap64 (wrap64 a + b) = wrap64 (a + b).
Proof. rewrite Z.add_comm, wrap64_add_r. f_equal. lia. Qed.

(** The 64-bit dot product of a vector with itself is the sum of its
    squares modulo 2^64. *)
Lemma dot64_fold l : forall s,
  fold_left (fun acc xy => wrap64 (acc + wrap64 (fst xy * snd xy)))
            (combine l l) (wrap64 s)
  = wrap64 (s + sum_sq l).
Proof.
  induction l as [|x l IH]; intros s; cbn [combine fold_left sum_sq fold_right fst snd].
  - f_equal. lia.
  - rewrite wrap64_add_r, wrap64_add_l, IH. f_equal. unfold sum_sq. lia.
Qed.

Lemma dot64_self l : dot64 l l = wrap64 (sum_sq l).
Proof. unfold dot64. change 0 with (wrap64 0) at 1. now rewrite dot64_fold. Qed.

Lemma sum_sq_perm a b : Permutation a b -> sum_sq a = sum_sq b.
Proof.
  induction 1; cbn [sum_sq fold_right] in *; try lia.
  unfold sum_sq in *. lia.
Qed.

Lemma sum_sq_bound l :
  Forall is_int16 l -> 0 <= sum_sq l <= len l * 2 ^ 30.
Proof.
  unfold len. induction 1 as [|x l Hx _ IH]; cbn [sum_sq fold_right length].
  - cbn. lia.
  - fold (sum_sq l). unfold is_int16 in Hx. nia.
Qed.

Lemma astype_int64_id l : Forall is_int16 l -> astype_int64 l = l.
Proof.
  unfold astype_int64. induction 1 as [|x l Hx _ IH]; cbn [map]; [reflexivity|].
  rewrite IH, wrap64_small; [reflexivity|]. unfold is_int16 in Hx. lia.
Qed.

Lemma sum_sq_repeat x n : sum_sq (repeat x n) = Z.of_nat n * (x * x).
Proof.
  induction n as [|n IH]; [reflexivity|].
  cbn [repeat sum_sq fold_right]. fold (sum_sq (repeat x n)). lia.
Qed.

End MeterFacts.

(** C9: the decibel energy of a chunk of 16-bit samples does not depend
    on the order of the samples; the 64-bit sum of squares is the exact
    sum, without overflow; and the result is ten times [np.log10] of the
    mean of the squared samples.  The chunk has fewer than 2^33 samples,
    as every chunk of the recorder has (320 by default). *)
Theorem C9_energy_order_independent
  (np_log10 : F64.float -> F64.float) (a b : list Z) :
  Forall is_int16 a -> len a < 2 ^ 33 -> Permutation a b ->
  sample_decibel_energy np_log10 a = sample_decibel_energy np_log10 b
  /\ dot64 (astype_int64 a) (astype_int64 a) = sum_sq a
  /\ 0 <= sum_sq a < 2 ^ 63
  /\ sample_decibel_energy np_log10 a = (np_log10 (mean_square a) * TEN)%f64.
Proof.
  intros Ha Hlen Hperm.
  assert (Hb : Forall is_int16 b)
    by (rewrite Forall_forall in *; intros x Hx; apply Ha;
        now apply Permutation_in with (l := b); [symmetry|]).
  pose proof (sum_sq_bound a Ha) as Hs.
  assert (Hs63 : 0 <= sum_sq a < 2 ^ 63) by lia.
  assert (Ea : dot64 (astype_int64 a) (astype_int64 a) = sum_sq a)
    by (rewrite astype_int64_id, dot64_self, wrap64_small by (auto; lia); reflexivity).
  assert (Eab : sample_decibel_energy np_log10 a = sample_decibel_energy np_log10 b).
  { unfold sample_decibel_energy, power.
    rewrite !astype_int64_id, !dot64_self by assumption.
    now rewrite (sum_sq_perm a b Hperm), (Permutation_length Hperm). }
  repeat split; try assumption; try lia.
  unfold sample_decibel_energy, power, mean_square, len. now rewrite Ea, astype_int64_id.
Qed.

Lemma C9_energy_order_independent_witness :
  sample_decibel_energy coarse_log10 [3; -4; 5]
  = sample_decibel_energy coarse_log10 [5; 3; -4].
Proof.
  apply (C9_energy_order_independent coarse_log10 [3; -4; 5] [5; 3; -4]).
  - repeat constructor; unfold is_int16; lia.
  - reflexivity.
  - apply Permutation_sym, (Permutation_cons_append [3; -4] 5).
Defined.

(** The bound on the length is the right one: 2^33 samples of -32768
    make the 64-bit sum wrap around to -2^63. *)
Remark dot64_wraps_at_2_33 :
  let a := repeat (-32768) (Z.to_nat (2 ^ 33)) in
  Forall is_int16 a /\ dot64 (astype_int64 a) (astype_int64 a) = - 2 ^ 63.
Proof.
  cbv zeta.
  assert (H : Forall is_int16 (repeat (-32768) (Z.to_nat (2 ^ 33)))).
  { apply Forall_forall. intros x Hx. apply repeat_spec in Hx. subst. unfold is_int16. lia. }
  split; [exact H|].
  rewrite astype_int64_id by exact H.
  rewrite dot64_self, sum_sq_repeat, Z2Nat.id by lia. reflexivity.
Qed.

(** ** The classifier against its reference definition *)

(** C3: one update of the classifier is the update the specification
    describes: same new state, same decision. *)
Theorem C3_classifier_refines_reference
  (st : ClassifierState) (current : F64.float) :
  classify_energy st current = classify_reference st current.
Proof.
  unfold classify_energy, classify_reference, not_speaking_step, must_stop,
    fmin, toward, smooth, unset_or, adjust_conditionally_on_change.
  destruct st as [lv bg fg sp]. cbn [level background foreground speaking].
  destruct sp; cbn [negb].
  - destruct (_ || _)%bool; cbn [negb].
    + destruct (_ >=? _)%f64; reflexivity.
    + reflexivity.
  - destruct (_ >=? _)%f64; reflexivity.
Qed.

(** ** Binary64 rounding *)

Section Digits.

Lemma digits2_pos_size p : digits2_pos p = Pos.size p.
Proof. induction p; cbn; now rewrite ?IHp. Qed.

Lemma Zdigits2_log2 m : 0 < m -> Zdigits2 m = Z.log2 m + 1.
Proof.
  destruct m as [|p|p]; try lia. intros _. cbn [Zdigits2].
  rewrite digits2_pos_size. destruct p; cbn; lia.
Qed.

Lemma Zdigits2_bounds m :
  0 < m -> 2 ^ (Zdigits2 m - 1) <= m < 2 ^ Zdigits2 m.
Proof.
  intros H. rewrite Zdigits2_log2 by exact H.
  replace (Z.log2 m + 1 - 1) with (Z.log2 m) by lia.
  apply Z.log2_spec, H.
Qed.

Lemma Zdigits2_unique m k :
  2 ^ (k - 1) <= m < 2 ^ k -> 0 < m -> Zdigits2 m = k.
Proof.
  intros H Hm. rewrite Zdigits2_log2 by exact Hm.
  assert (0 <= k - 1).
  { destruct (Z.le_gt_cases 0 (k - 1)) as [|N]; [assumption|].
    assert (k <= 0) by lia.
    assert (2 ^ k <= 1).
    { destruct (Z.eq_dec k 0) as [->|]; [cbn; lia|].
      rewrite Z.pow_neg_r by lia. lia. }
    lia. }
  rewrite (Z.log2_unique m (k - 1)); [lia|lia|].
  replace (Z.succ (k - 1)) with k by lia. exact H.
Qed.

Lemma Zdigits2_nonneg m : 0 <= Zdigits2 m.
Proof. destruct m; cbn; lia. Qed.

Lemma Zdigits2_pos m : 0 < m -> 0 < Zdigits2 m.
Proof. destruct m; cbn; lia. Qed.

End Digits.

Section Shift.

Lemma shr_1_m mrs : 0 <= shr_m mrs -> shr_m (shr_1 mrs) = shr_m mrs / 2.
Proof.
  destruct mrs as [m r s]. cbn [shr_m]. intros H.
  destruct m as [|[p|p|]|p]; cbn [shr_1 shr_m]; try lia.
  all: try reflexivity.
  - change (Z.pos p~1) with (2 * Z.pos p + 1).
    apply Z.div_unique with (r := 1); lia.
  - change (Z.pos p~0) with (2 * Z.pos p).
    apply Z.div_unique with (r := 0); lia.
Qed.

Lemma shr_1_nonneg mrs : 0 <= shr_m mrs -> 0 <= shr_m (shr_1 mrs).
Proof.
  intros H. rewrite shr_1_m by exact H. apply Z.div_pos; lia.
Qed.

Lemma iter_shr_m p : forall mrs,
  0 <= shr_m mrs ->
  shr_m (SpecFloat.iter_pos shr_1 p mrs) = shr_m mrs / 2 ^ Zpos p.
Proof.
  induction p as [p IH|p IH|]; intros mrs H; cbn [SpecFloat.iter_pos].
  - assert (H1 := shr_1_nonneg _ H).
    assert (H2 : 0 <= shr_m (SpecFloat.iter_pos shr_1 p (shr_1 mrs)))
      by (rewrite IH by exact H1; apply Z.div_pos; lia).
    rewrite IH, IH, shr_1_m by assumption.
    rewrite !Z.div_div by lia. f_equal.
    rewrite Pos2Z.inj_xI, <- !Z.pow_add_r, <- (Z.pow_1_r 2) at 1 by lia.
    rewrite <- !Z.pow_add_r by lia. f_equal. lia.
  - assert (H2 : 0 <= shr_m (SpecFloat.iter_pos shr_1 p mrs))
      by (rewrite IH by exact H; apply Z.div_pos; lia).
    rewrite IH, IH by assumption.
    rewrite Z.div_div by lia. f_equal.
    rewrite Pos2Z.inj_xO, <- Z.pow_add_r by lia. f_equal. lia.
  - now rewrite shr_1_m, Z.pow_1_r.
Qed.

Lemma shr_spec mrs e n :
  0 <= shr_m mrs ->
  shr_m (fst (shr mrs e n)) = shr_m mrs / 2 ^ Z.max 0 n
  /\ snd (shr mrs e n) = e + Z.max 0 n.
Proof.
  intros H. destruct n as [|p|p]; cbn [shr fst snd].
  - cbn. rewrite Z.div_1_r. lia.
  - rewrite iter_shr_m by exact H. rewrite Z.max_r by lia. auto.
  - rewrite Z.max_l by lia. cbn. rewrite Z.div_1_r. lia.
Qed.

Lemma shr_record_of_loc_m m l : shr_m (shr_record_of_loc m l) = m.
Proof. destruct l as [|[ | | ]]; reflexivity. Qed.

Lemma round_nearest_even_cases m l :
  round_nearest_even m l = m \/ round_nearest_even m l = m + 1.
Proof.
  destruct l as [|[ | | ]]; cbn; auto. destruct (Z.even m); auto.
Qed.

End Shift.

Section RoundAux.

Local Abbreviation fexp64 := (SpecFloat.fexp F64.prec F64.emax).

Lemma fexp64_eq k : fexp64 k = Z.max (k - 53) (-1074).
Proof. reflexivity. Qed.

(** Dividing by a power of two removes that many digits. *)
Lemma Zdigits2_div_pow2 m n :
  0 <= n -> 0 < m / 2 ^ n ->
  Zdigits2 (m / 2 ^ n) = Zdigits2 m - n.
Proof.
  intros Hn Hq.
  assert (Hp : 0 < 2 ^ n) by (apply Z.pow_pos_nonneg; lia).
  assert (Hm : 0 < m).
  { destruct (Z.le_gt_cases m 0) as [N|]; [|assumption].
    assert (m / 2 ^ n <= 0) by (apply Z.div_le_upper_bound; lia). lia. }
  pose proof (Zdigits2_bounds m Hm) as [Hlo Hhi].
  pose proof (Zdigits2_pos m Hm) as Hd.
  assert (Hlt : m / 2 ^ n < 2 ^ (Zdigits2 m - n) \/ Zdigits2 m - n < 0).
  { destruct (Z.le_gt_cases 0 (Zdigits2 m - n)); [left|right; lia].
    apply Z.div_lt_upper_bound; [exact Hp|].
    rewrite <- Z.pow_add_r by lia.
    now replace (n + (Zdigits2 m - n)) with (Zdigits2 m) by lia. }
  assert (Hge : 1 <= Zdigits2 m - n).
  { destruct (Z.le_gt_cases 1 (Zdigits2 m - n)); [assumption|].
    assert (m < 2 ^ n).
    { eapply Z.lt_le_trans; [exact Hhi|]. apply Z.pow_le_mono_r; lia. }
    rewrite Z.div_small in Hq by lia. lia. }
  destruct Hlt as [Hlt|]; [|lia].
  apply Zdigits2_unique; [|exact Hq]. split; [|exact Hlt].
  apply Z.div_le_lower_bound; [exact Hp|].
  rewrite <- Z.pow_add_r by lia.
  now replace (n + (Zdigits2 m - n - 1)) with (Zdigits2 m - 1) by lia.
Qed.

Lemma Zdigits2_pow2 k : 0 <= k -> Zdigits2 (2 ^ k) = k + 1.
Proof.
  intros Hk. apply Zdigits2_unique.
  - replace (k + 1 - 1) with k by lia. split; [lia|].
    apply Z.pow_lt_mono_r; lia.
  - apply Z.pow_pos_nonneg; lia.
Qed.

(** The significand after the first shift is canonical, and so is what
    rounding and the second shift make of it; the second shift loses
    nothing. *)
Lemma round_canonical m e m2 :
  0 <= m ->
  e <= fexp64 (Zdigits2 m + e) ->
  (m2 = m / 2 ^ (fexp64 (Zdigits2 m + e) - e)
   \/ m2 = m / 2 ^ (fexp64 (Zdigits2 m + e) - e) + 1) ->
  let e1 := fexp64 (Zdigits2 m + e) in
  let n2 := Z.max 0 (fexp64 (Zdigits2 m2 + e1) - e1) in
  (m2 / 2 ^ n2) * 2 ^ n2 = m2
  /\ (n2 = 0 \/ n2 = 1)
  /\ (0 < m2 / 2 ^ n2 ->
      fexp64 (Zdigits2 (m2 / 2 ^ n2) + (e1 + n2)) = e1 + n2).
Proof.
  intros Hm He Hm2. cbv zeta.
  set (d := Zdigits2 m) in *. set (e1 := fexp64 (d + e)) in *.
  set (n := e1 - e) in *. set (m1 := m / 2 ^ n) in *.
  assert (Hn : 0 <= n) by (unfold n; lia).
  assert (Hp : 0 < 2 ^ n) by (apply Z.pow_pos_nonneg; lia).
  assert (Hm1 : 0 <= m1) by (apply Z.div_pos; lia).
  assert (He1 : e1 = Z.max (d + e - 53) (-1074)) by reflexivity.
  assert (Hd0 : 0 <= d) by apply Zdigits2_nonneg.
  destruct (Z.eq_dec m1 0) as [Z1|NZ1].
  - (* everything was shifted out: the result is 0 or the least subnormal *)
    assert (Hemin : e1 = -1074).
    { destruct (Z.eq_dec m 0) as [->|NZ].
      - change (Zdigits2 0) with 0 in d. lia.
      - assert (Hmp : 0 < m) by lia.
        pose proof (Zdigits2_bounds m Hmp) as [Hlo _]. fold d in Hlo.
        assert (m < 2 ^ n).
        { destruct (Z.lt_ge_cases m (2 ^ n)) as [|G]; [assumption|].
          assert (1 <= m1) by (apply Z.div_le_lower_bound; lia). lia. }
        assert (d - 1 < n).
        { apply (Z.pow_lt_mono_r_iff 2); try lia. }
        unfold n in *. lia. }
    destruct Hm2 as [->| ->]; rewrite Z1.
    + change (Zdigits2 0) with 0. rewrite fexp64_eq.
      replace (Z.max 0 (Z.max (0 + e1 - 53) (-1074) - e1)) with 0 by lia.
      cbn. split; [reflexivity|]. split; [auto|lia].
    + cbn [Z.add]. rewrite Hemin. cbn.
      split; [reflexivity|]. split; [auto|reflexivity].
  - assert (Hm1p : 0 < m1) by lia.
    assert (Hd1 : Zdigits2 m1 = d - n)
      by (apply Zdigits2_div_pow2; assumption).
    pose proof (Zdigits2_bounds m1 Hm1p) as [Hlo Hhi]. rewrite Hd1 in Hlo, Hhi.
    assert (Hdn : 1 <= d - n) by (pose proof (Zdigits2_pos m1 Hm1p); lia).
    assert (Hcan : fexp64 (d - n + e1) = e1)
      by (rewrite fexp64_eq; unfold n; lia).
    destruct Hm2 as [->| ->].
    + rewrite Hd1, Hcan. replace (Z.max 0 (e1 - e1)) with 0 by lia.
      rewrite Z.pow_0_r, Z.div_1_r, Z.mul_1_r, Z.add_0_r, Hd1.
      split; [reflexivity|]. split; [auto|]. intros _. exact Hcan.
    + destruct (Z.eq_dec (m1 + 1) (2 ^ (d - n))) as [E|NE].
      * (* the carry reaches a new digit *)
        rewrite E, Zdigits2_pow2 by lia. rewrite fexp64_eq.
        destruct (Z.le_gt_cases (-1074) (d + e - 53)) as [Hnorm|Hsub].
        -- replace (Z.max 0 (Z.max (d - n + 1 + e1 - 53) (-1074) - e1)) with 1
             by (unfold n; lia).
           rewrite Z.pow_1_r.
           replace (2 ^ (d - n)) with (2 ^ (d - n - 1) * 2)
             by (rewrite <- (Z.pow_1_r 2) at 2; rewrite <- Z.pow_add_r by lia;
                 f_equal; lia).
           rewrite Z.div_mul by lia. split; [reflexivity|]. split; [auto|].
           intros _. rewrite Zdigits2_pow2 by lia. rewrite fexp64_eq.
           unfold n. lia.
        -- replace (Z.max 0 (Z.max (d - n + 1 + e1 - 53) (-1074) - e1)) with 0
             by (unfold n; lia).
           rewrite Z.pow_0_r, Z.div_1_r, Z.mul_1_r, Z.add_0_r.
           split; [reflexivity|]. split; [auto|]. intros _.
           rewrite Zdigits2_pow2 by lia. rewrite fexp64_eq. unfold n. lia.
      * assert (Hd2 : Zdigits2 (m1 + 1) = d - n).
        { apply Zdigits2_unique; lia. }
        rewrite Hd2, Hcan. replace (Z.max 0 (e1 - e1)) with 0 by lia.
        rewrite Z.pow_0_r, Z.div_1_r, Z.mul_1_r, Z.add_0_r, Hd2.
        split; [reflexivity|]. split; [auto|]. intros _. exact Hcan.
Qed.

End RoundAux.

Section RoundAuxSpec.

Local Abbreviation fexp64 := (SpecFloat.fexp F64.prec F64.emax).

Lemma round_aux_spec s m e l :
  0 <= m ->
  e <= fexp64 (Zdigits2 m + e) ->
  exists m2 m3 e3,
    (m2 = m / 2 ^ (fexp64 (Zdigits2 m + e) - e)
     \/ m2 = m / 2 ^ (fexp64 (Zdigits2 m + e) - e) + 1)
    /\ fexp64 (Zdigits2 m + e) <= e3 <= fexp64 (Zdigits2 m + e) + 1
    /\ m3 * 2 ^ (e3 - fexp64 (Zdigits2 m + e)) = m2
    /\ 0 <= m3
    /\ (0 < m3 -> fexp64 (Zdigits2 m3 + e3) = e3)
    /\ binary_round_aux F64.prec F64.emax s m e l = round_result s m3 e3.
Proof.
  intros Hm He.
  set (e1 := fexp64 (Zdigits2 m + e)) in *.
  unfold binary_round_aux, shr_fexp. fold e1.
  assert (H0 : 0 <= shr_m (shr_record_of_loc m l))
    by (now rewrite shr_record_of_loc_m).
  destruct (shr_spec (shr_record_of_loc m l) e (e1 - e) H0) as [A1 A2].
  destruct (shr (shr_record_of_loc m l) e (e1 - e)) as [mrs' e'].
  cbn [fst snd] in A1, A2. rewrite shr_record_of_loc_m in A1.
  rewrite Z.max_r in A1, A2 by lia.
  replace e' with e1 by lia. clear A2.
  set (m2 := round_nearest_even (shr_m mrs') (loc_of_shr_record mrs')).
  assert (Hm2 : m2 = m / 2 ^ (e1 - e) \/ m2 = m / 2 ^ (e1 - e) + 1).
  { unfold m2. rewrite <- A1. apply round_nearest_even_cases. }
  assert (Hm1 : 0 <= m / 2 ^ (e1 - e))
    by (apply Z.div_pos; [lia|apply Z.pow_pos_nonneg; lia]).
  assert (Hm2' : 0 <= m2) by lia.
  destruct (round_canonical m e m2 Hm He Hm2) as (B1 & B2 & B3).
  fold e1 in B1, B2, B3.
  set (n2 := Z.max 0 (fexp64 (Zdigits2 m2 + e1) - e1)) in *.
  assert (H1 : 0 <= shr_m (shr_record_of_loc m2 loc_Exact)) by exact Hm2'.
  destruct (shr_spec (shr_record_of_loc m2 loc_Exact) e1
              (fexp64 (Zdigits2 m2 + e1) - e1) H1) as [C1 C2].
  destruct (shr (shr_record_of_loc m2 loc_Exact) e1
              (fexp64 (Zdigits2 m2 + e1) - e1)) as [mrs'' e''].
  cbn [fst snd] in C1, C2. fold n2 in C1, C2.
  cbn [shr_record_of_loc shr_m] in C1.
  exists m2, (m2 / 2 ^ n2), (e1 + n2).
  split; [exact Hm2|]. split; [lia|].
  split; [replace (e1 + n2 - e1) with n2 by lia; exact B1|].
  split; [apply Z.div_pos; [lia|apply Z.pow_pos_nonneg; lia]|].
  split; [exact B3|].
  rewrite C1, C2. reflexivity.
Qed.

End RoundAuxSpec.

Section Pow2.

Lemma pow2_pos e : (0 < pow2 e)%Q.
Proof. apply Qpower_0_lt. reflexivity. Qed.

Lemma pow2_add a b : (pow2 (a + b) == pow2 a * pow2 b)%Q.
Proof. apply Qpower_plus. discriminate. Qed.

Lemma pow2_inject n : 0 <= n -> (inject_Z (2 ^ n) == pow2 n)%Q.
Proof. intros H. unfold pow2. now rewrite Zpower_Qpower. Qed.

Lemma pow2_le a b : a <= b -> (pow2 a <= pow2 b)%Q.
Proof. intros H. apply Qpower_le_compat_l; [exact H|]. discriminate. Qed.

Lemma pow2_lt_inv a b : (pow2 a < pow2 b)%Q -> a < b.
Proof.
  intros H. destruct (Z.lt_ge_cases a b) as [|G]; [assumption|].
  apply pow2_le in G. lra.
Qed.

(** Moving a power of two between significand and exponent. *)
Lemma scale_pow2 z n e :
  0 <= n -> (inject_Z (z * 2 ^ n) * pow2 e == inject_Z z * pow2 (e + n))%Q.
Proof.
  intros H. rewrite inject_Z_mult, pow2_inject, pow2_add by exact H. ring.
Qed.

Lemma inject_Z_cond_Zopp s z :
  (inject_Z (cond_Zopp s z) == if s then - inject_Z z else inject_Z z)%Q.
Proof. destruct s; cbn [cond_Zopp]; [now rewrite inject_Z_opp|reflexivity]. Qed.

End Pow2.

Section RoundAuxValue.

Local Abbreviation fexp64 := (SpecFloat.fexp F64.prec F64.emax).

Lemma round_result_good s m3 e3 :
  0 <= m3 -> e3 <= 971 ->
  (0 < m3 -> fexp64 (Zdigits2 m3 + e3) = e3) ->
  good (round_result s m3 e3)
  /\ (B2Q (round_result s m3 e3)
      == if s then - (inject_Z m3 * pow2 e3) else inject_Z m3 * pow2 e3)%Q
  /\ (round_result s m3 e3 = S754_zero s
      \/ exists p e, round_result s m3 e3 = S754_finite s p e).
Proof.
  intros H0 He Hc. unfold round_result.
  destruct m3 as [|p|p]; [| |lia].
  - split; [split; reflexivity|]. split; [|now left].
    cbn [B2Q]. destruct s; ring.
  - replace (e3 <=? F64.emax - F64.prec) with true
      by (symmetry; apply Z.leb_le; exact He).
    split; [|split].
    + split; [reflexivity|]. unfold F64.valid, valid_binary, bounded, canonical_mantissa.
      change (Z.pos (digits2_pos p)) with (Zdigits2 (Z.pos p)).
      rewrite Hc by lia. rewrite Z.eqb_refl. cbn [andb].
      apply Z.leb_le. exact He.
    + cbn [B2Q]. rewrite inject_Z_cond_Zopp. destruct s; ring.
    + right. eauto.
Qed.

Lemma inject_Z_mul_le a b e :
  a <= b -> (inject_Z a * pow2 e <= inject_Z b * pow2 e)%Q.
Proof.
  intros H. apply Qmult_le_compat_r; [now rewrite <- Zle_Qle|].
  apply Qlt_le_weak, pow2_pos.
Qed.

Lemma round_aux_value s m e l (x : Q) k :
  0 <= m ->
  e <= fexp64 (Zdigits2 m + e) ->
  (inject_Z m * pow2 e <= x)%Q ->
  (x <= inject_Z (m + 1) * pow2 e)%Q ->
  (x < pow2 k)%Q ->
  -1074 <= k <= 1023 ->
  exists v : Q,
    good (binary_round_aux F64.prec F64.emax s m e l)
    /\ (B2Q (binary_round_aux F64.prec F64.emax s m e l)
        == if s then - v else v)%Q
    /\ (0 <= v <= pow2 k)%Q
    /\ (x - pow2 (Z.max (k - 53) (-1074)) <= v
        <= x + pow2 (Z.max (k - 53) (-1074)))%Q
    /\ (binary_round_aux F64.prec F64.emax s m e l = S754_zero s
        \/ exists p e3,
             binary_round_aux F64.prec F64.emax s m e l = S754_finite s p e3).
Proof.
  intros Hm He Hlo Hhi Hk Hkr.
  destruct (round_aux_spec s m e l Hm He)
    as (m2 & m3 & e3 & Hm2 & He3 & Hm3 & Hm3n & Hcan & ->).
  set (e1 := fexp64 (Zdigits2 m + e)) in *.
  set (n := e1 - e) in *. set (m1 := m / 2 ^ n) in *.
  assert (Hn : 0 <= n) by (unfold n; lia).
  assert (Hp : 0 < 2 ^ n) by (apply Z.pow_pos_nonneg; lia).
  assert (Hm1 : 0 <= m1) by (apply Z.div_pos; lia).
  assert (F1 : m1 * 2 ^ n <= m)
    by (unfold m1; rewrite Z.mul_comm; apply Z.mul_div_le; exact Hp).
  assert (F2 : m + 1 <= (m1 + 1) * 2 ^ n).
  { pose proof (Z.mul_succ_div_gt m (2 ^ n) Hp). fold m1 in H. lia. }
  assert (Ee : e + n = e1) by (unfold n; lia).
  assert (L : (inject_Z m1 * pow2 e1 <= x)%Q).
  { rewrite <- Ee, <- scale_pow2 by exact Hn.
    eapply Qle_trans; [apply inject_Z_mul_le, F1|exact Hlo]. }
  assert (U : (x <= inject_Z (m1 + 1) * pow2 e1)%Q).
  { rewrite <- Ee, <- scale_pow2 by exact Hn.
    eapply Qle_trans; [exact Hhi|apply inject_Z_mul_le, F2]. }
  assert (E1 : e1 <= Z.max (k - 53) (-1074)).
  { destruct (Z.eq_dec m 0) as [Z0|NZ].
    - subst m. change (Zdigits2 0) with 0 in e1.
      unfold e1 in *. rewrite fexp64_eq in *. lia.
    - assert (Hmp : 0 < m) by lia.
      pose proof (Zdigits2_bounds m Hmp) as [Hd _].
      pose proof (Zdigits2_pos m Hmp) as Hdp.
      assert (pow2 (Zdigits2 m - 1 + e) < pow2 k)%Q.
      { eapply Qle_lt_trans; [|exact Hk].
        eapply Qle_trans; [|exact Hlo].
        rewrite pow2_add, <- pow2_inject by lia.
        apply inject_Z_mul_le, Hd. }
      apply pow2_lt_inv in H. unfold e1. rewrite fexp64_eq. lia. }
  assert (K : m1 + 1 <= 2 ^ (k - e1)).
  { assert (inject_Z m1 < inject_Z (2 ^ (k - e1)))%Q.
    { apply (Qmult_lt_r _ _ (pow2 e1)); [apply pow2_pos|].
      eapply Qle_lt_trans; [exact L|].
      rewrite pow2_inject, <- pow2_add by lia.
      now replace (k - e1 + e1) with k by lia. }
    rewrite <- Zlt_Qlt in H. lia. }
  assert (V : (inject_Z m3 * pow2 e3 == inject_Z m2 * pow2 e1)%Q).
  { rewrite <- Hm3, scale_pow2 by lia.
    now replace (e1 + (e3 - e1)) with e3 by lia. }
  destruct (round_result_good s m3 e3 Hm3n) as (G1 & G2 & G3);
    [lia|exact Hcan|].
  exists (inject_Z m2 * pow2 e1)%Q.
  split; [exact G1|]. split; [rewrite G2; destruct s; rewrite V; reflexivity|].
  pose proof (pow2_pos e1) as P1.
  assert (P2 : (pow2 e1 <= pow2 (Z.max (k - 53) (-1074)))%Q)
    by (apply pow2_le, E1).
  assert (Kq : (inject_Z (m1 + 1) * pow2 e1 <= pow2 k)%Q).
  { replace k with (k - e1 + e1) at 1 by lia.
    rewrite pow2_add, <- (pow2_inject (k - e1)) by lia.
    apply inject_Z_mul_le, K. }
  assert (S1 : (inject_Z (m1 + 1) * pow2 e1
                == inject_Z m1 * pow2 e1 + pow2 e1)%Q)
    by (rewrite inject_Z_plus; ring).
  assert (N1 : (0 <= inject_Z m1 * pow2 e1)%Q).
  { apply Qmult_le_0_compat; [|lra].
    change 0%Q with (inject_Z 0). now rewrite <- Zle_Qle. }
  split; [|split; [|exact G3]].
  - destruct Hm2 as [-> | ->]; lra.
  - destruct Hm2 as [-> | ->]; lra.
Qed.

End RoundAuxValue.

(** ** The operations on doubles *)

Section Operations.

Local Abbreviation fexp64 := (SpecFloat.fexp F64.prec F64.emax).

Lemma Zdigits2_mul_pow2 m n :
  0 < m -> 0 <= n -> Zdigits2 (m * 2 ^ n) = Zdigits2 m + n.
Proof.
  intros Hm Hn. pose proof (Zdigits2_bounds m Hm) as [Hlo Hhi].
  pose proof (Zdigits2_pos m Hm) as Hd.
  assert (Hp : 0 < 2 ^ n) by (apply Z.pow_pos_nonneg; lia).
  apply Zdigits2_unique; [|nia].
  replace (Zdigits2 m + n - 1) with (Zdigits2 m - 1 + n) by lia.
  rewrite !Z.pow_add_r by lia. nia.
Qed.

Lemma iter_xO m d : Z.pos (Pos.iter xO m d) = Z.pos m * 2 ^ Z.pos d.
Proof.
  induction d as [|d IH] using Pos.peano_ind.
  - cbn [Pos.iter]. rewrite Z.pow_1_r. lia.
  - rewrite Pos.iter_succ, Pos2Z.inj_xO, IH, Pos2Z.inj_succ, Z.pow_succ_r by lia.
    lia.
Qed.

Lemma good_finite s m e :
  good (S754_finite s m e)
  <-> fexp64 (Zdigits2 (Z.pos m) + e) = e /\ e <= 971.
Proof.
  unfold good, F64.valid, valid_binary, bounded, canonical_mantissa.
  cbn [finite]. change (Z.pos (digits2_pos m)) with (Zdigits2 (Z.pos m)).
  rewrite andb_true_iff, Z.eqb_eq, Z.leb_le.
  change (F64.emax - F64.prec) with 971. tauto.
Qed.

Lemma good_zero s : good (S754_zero s).
Proof. split; reflexivity. Qed.

Lemma B2Q_finite s m e :
  (B2Q (S754_finite s m e)
   == if s then - (inject_Z (Z.pos m) * pow2 e)
      else inject_Z (Z.pos m) * pow2 e)%Q.
Proof. cbn [B2Q]. rewrite inject_Z_cond_Zopp. destruct s; ring. Qed.

Lemma mantissa_pos m e : (0 < inject_Z (Z.pos m) * pow2 e)%Q.
Proof.
  apply Qmult_lt_0_compat; [|apply pow2_pos].
  change 0%Q with (inject_Z 0). rewrite <- Zlt_Qlt. lia.
Qed.

(** [binary_round]: a significand of any length at any exponent. *)
Lemma binary_round_value s m e k :
  (inject_Z (Z.pos m) * pow2 e < pow2 k)%Q ->
  -1074 <= k <= 1023 ->
  exists v : Q,
    good (binary_round F64.prec F64.emax s m e)
    /\ (B2Q (binary_round F64.prec F64.emax s m e) == if s then - v else v)%Q
    /\ (0 <= v <= pow2 k)%Q
    /\ (inject_Z (Z.pos m) * pow2 e - pow2 (Z.max (k - 53) (-1074)) <= v
        <= inject_Z (Z.pos m) * pow2 e + pow2 (Z.max (k - 53) (-1074)))%Q
    /\ (binary_round F64.prec F64.emax s m e = S754_zero s
        \/ exists p e3,
             binary_round F64.prec F64.emax s m e = S754_finite s p e3).
Proof.
  intros Hk Hkr. unfold binary_round, shl_align.
  change (Z.pos (digits2_pos m)) with (Zdigits2 (Z.pos m)).
  set (e' := fexp64 (Zdigits2 (Z.pos m) + e)).
  destruct (e' - e) as [|d|d] eqn:Ed.
  - apply round_aux_value; try assumption; try lia;
      [apply Qle_refl|apply inject_Z_mul_le; lia].
  - apply round_aux_value; try assumption; try lia;
      [apply Qle_refl|apply inject_Z_mul_le; lia].
  - assert (Ev : (inject_Z (Z.pos (Pos.iter xO m d)) * pow2 e'
                  == inject_Z (Z.pos m) * pow2 e)%Q).
    { rewrite iter_xO, scale_pow2 by lia. now replace (e' + Z.pos d) with e by lia. }
    apply round_aux_value; try assumption; try lia.
    + rewrite iter_xO, Zdigits2_mul_pow2 by lia.
      replace (Zdigits2 (Z.pos m) + Z.pos d + e') with (Zdigits2 (Z.pos m) + e) by lia.
      fold e'. lia.
    + rewrite Ev. apply Qle_refl.
    + rewrite <- Ev. apply inject_Z_mul_le. lia.
Qed.

(** [binary_normalize]: a signed integer at an exponent. *)
Lemma binary_normalize_value mz e k :
  (- pow2 k < inject_Z mz * pow2 e < pow2 k)%Q ->
  -1074 <= k <= 1023 ->
  good (binary_normalize F64.prec F64.emax mz e false)
  /\ (inject_Z mz * pow2 e - pow2 (Z.max (k - 53) (-1074))
      <= B2Q (binary_normalize F64.prec F64.emax mz e false)
      <= inject_Z mz * pow2 e + pow2 (Z.max (k - 53) (-1074)))%Q.
Proof.
  intros Hk Hkr. pose proof (pow2_pos (Z.max (k - 53) (-1074))) as Heta.
  destruct mz as [|p|p]; cbn [binary_normalize].
  - split; [apply good_zero|]. cbn [B2Q]. change (inject_Z 0) with 0%Q. lra.
  - destruct (binary_round_value false p e k) as (v & G & V & _ & B & _);
      [lra|exact Hkr|].
    split; [exact G|]. rewrite V. exact B.
  - assert (E : (inject_Z (Z.neg p) == - inject_Z (Z.pos p))%Q)
      by (now rewrite <- inject_Z_opp).
    rewrite E in Hk |- *.
    destruct (binary_round_value true p e k) as (v & G & V & _ & B & _);
      [lra|exact Hkr|].
    split; [exact G|]. rewrite V. lra.
Qed.

Lemma shl_align_value m e e' :
  e' <= e -> Z.pos (fst (shl_align m e e')) = Z.pos m * 2 ^ (e - e').
Proof.
  intros H. unfold shl_align. destruct (e' - e) as [|d|d] eqn:Ed; cbn [fst].
  - replace (e - e') with 0 by lia. lia.
  - lia.
  - rewrite iter_xO. f_equal. f_equal. lia.
Qed.

Lemma aligned_value s m e ez :
  ez <= e ->
  (inject_Z (cond_Zopp s (Z.pos (fst (shl_align m e ez)))) * pow2 ez
   == B2Q (S754_finite s m e))%Q.
Proof.
  intros H. rewrite shl_align_value by exact H.
  rewrite B2Q_finite, inject_Z_cond_Zopp.
  assert (E : (inject_Z (Z.pos m * 2 ^ (e - ez)) * pow2 ez
               == inject_Z (Z.pos m) * pow2 e)%Q).
  { rewrite scale_pow2 by lia. now replace (ez + (e - ez)) with e by lia. }
  destruct s; rewrite <- E; ring.
Qed.

Lemma B2Q_zero s : B2Q (S754_zero s) = 0%Q.
Proof. reflexivity. Qed.

(** Addition and subtraction of finite doubles: the exact result,
    rounded, within half a unit of the last place of the bound. *)
Lemma add_spec x y k :
  good x -> good y ->
  (- pow2 k < B2Q x + B2Q y < pow2 k)%Q ->
  -1074 <= k <= 1023 ->
  good (x + y)%f64
  /\ (B2Q x + B2Q y - pow2 (Z.max (k - 53) (-1074))
      <= B2Q (x + y)%f64
      <= B2Q x + B2Q y + pow2 (Z.max (k - 53) (-1074)))%Q.
Proof.
  intros Gx Gy Hk Hkr. pose proof (pow2_pos (Z.max (k - 53) (-1074))) as Heta.
  destruct x as [sx|sx| |sx mx ex]; try (destruct Gx as [F _]; discriminate F);
  destruct y as [sy|sy| |sy my ey]; try (destruct Gy as [F _]; discriminate F).
  - assert (G : good (S754_zero sx + S754_zero sy)%f64)
      by (destruct sx, sy; apply good_zero).
    split; [exact G|]. destruct sx, sy; cbn; lra.
  - change (S754_zero sx + S754_finite sy my ey)%f64 with (S754_finite sy my ey).
    split; [exact Gy|]. rewrite B2Q_zero. lra.
  - change (S754_finite sx mx ex + S754_zero sy)%f64 with (S754_finite sx mx ex).
    split; [exact Gx|]. rewrite B2Q_zero. lra.
  - unfold F64.add, SFadd.
    set (ez := Z.min ex ey).
    set (mz := cond_Zopp sx (Z.pos (fst (shl_align mx ex ez)))
               + cond_Zopp sy (Z.pos (fst (shl_align my ey ez)))).
    assert (E : (inject_Z mz * pow2 ez
                 == B2Q (S754_finite sx mx ex) + B2Q (S754_finite sy my ey))%Q).
    { unfold mz. rewrite inject_Z_plus, Qmult_plus_distr_l.
      rewrite !aligned_value by (unfold ez; lia). reflexivity. }
    rewrite <- E in Hk |- *. apply binary_normalize_value; assumption.
Qed.

Lemma sub_spec x y k :
  good x -> good y ->
  (- pow2 k < B2Q x - B2Q y < pow2 k)%Q ->
  -1074 <= k <= 1023 ->
  good (x - y)%f64
  /\ (B2Q x - B2Q y - pow2 (Z.max (k - 53) (-1074))
      <= B2Q (x - y)%f64
      <= B2Q x - B2Q y + pow2 (Z.max (k - 53) (-1074)))%Q.
Proof.
  intros Gx Gy Hk Hkr. pose proof (pow2_pos (Z.max (k - 53) (-1074))) as Heta.
  destruct x as [sx|sx| |sx mx ex]; try (destruct Gx as [F _]; discriminate F);
  destruct y as [sy|sy| |sy my ey]; try (destruct Gy as [F _]; discriminate F).
  - assert (G : good (S754_zero sx - S754_zero sy)%f64)
      by (destruct sx, sy; apply good_zero).
    split; [exact G|]. destruct sx, sy; cbn; lra.
  - change (S754_zero sx - S754_finite sy my ey)%f64
      with (S754_finite (negb sy) my ey).
    split.
    + apply good_finite. apply good_finite in Gy. exact Gy.
    + rewrite B2Q_zero, !B2Q_finite. destruct sy; cbn [negb]; lra.
  - change (S754_finite sx mx ex - S754_zero sy)%f64 with (S754_finite sx mx ex).
    split; [exact Gx|]. rewrite B2Q_zero. lra.
  - unfold F64.sub, SFsub.
    set (ez := Z.min ex ey).
    set (mz := cond_Zopp sx (Z.pos (fst (shl_align mx ex ez)))
               - cond_Zopp sy (Z.pos (fst (shl_align my ey ez)))).
    assert (E : (inject_Z mz * pow2 ez
                 == B2Q (S754_finite sx mx ex) - B2Q (S754_finite sy my ey))%Q).
    { unfold mz, Z.sub. rewrite inject_Z_plus, inject_Z_opp, Qmult_plus_distr_l.
      setoid_replace (- inject_Z (cond_Zopp sy (Z.pos (fst (shl_align my ey ez))))
                      * pow2 ez)%Q
        with (- (inject_Z (cond_Zopp sy (Z.pos (fst (shl_align my ey ez))))
                 * pow2 ez))%Q by ring.
      rewrite !aligned_value by (unfold ez; lia). reflexivity. }
    rewrite <- E in Hk |- *. apply binary_normalize_value; assumption.
Qed.

Lemma Zdigits2_mul_lower a b :
  0 < a -> 0 < b -> Zdigits2 a + Zdigits2 b - 1 <= Zdigits2 (a * b).
Proof.
  intros Ha Hb.
  pose proof (Zdigits2_bounds a Ha) as [La _].
  pose proof (Zdigits2_bounds b Hb) as [Lb _].
  pose proof (Zdigits2_pos a Ha). pose proof (Zdigits2_pos b Hb).
  assert (Hab : 0 < a * b) by nia.
  pose proof (Zdigits2_bounds (a * b) Hab) as [_ U].
  pose proof (Zdigits2_pos (a * b) Hab).
  assert (2 ^ (Zdigits2 a - 1 + (Zdigits2 b - 1)) < 2 ^ Zdigits2 (a * b)).
  { rewrite Z.pow_add_r by lia. nia. }
  apply Z.pow_lt_mono_r_iff in H2; lia.
Qed.

(** A canonical significand has at most 53 digits, and exactly 53 above
    the subnormal range. *)
Lemma canonical_digits m e :
  fexp64 (Zdigits2 (Z.pos m) + e) = e ->
  -1074 <= e
  /\ 1 <= Zdigits2 (Z.pos m) <= 53
  /\ (-1074 < e -> Zdigits2 (Z.pos m) = 53).
Proof.
  rewrite fexp64_eq. pose proof (Zdigits2_pos (Z.pos m)). lia.
Qed.

Lemma mul_spec x y k :
  good x -> good y ->
  (- pow2 k < B2Q x * B2Q y < pow2 k)%Q ->
  -1074 <= k <= 1023 ->
  good (x * y)%f64
  /\ (B2Q x * B2Q y - pow2 (Z.max (k - 53) (-1074))
      <= B2Q (x * y)%f64
      <= B2Q x * B2Q y + pow2 (Z.max (k - 53) (-1074)))%Q.
Proof.
  intros Gx Gy Hk Hkr. pose proof (pow2_pos (Z.max (k - 53) (-1074))) as Heta.
  destruct x as [sx|sx| |sx mx ex]; try (destruct Gx as [F _]; discriminate F);
  destruct y as [sy|sy| |sy my ey]; try (destruct Gy as [F _]; discriminate F).
  1-3: (split; [apply good_zero|]; cbn [F64.mul SFmul]; rewrite ?B2Q_zero; lra).
  unfold F64.mul, SFmul.
  apply good_finite in Gx, Gy. destruct Gx as [Cx _], Gy as [Cy _].
  destruct (canonical_digits _ _ Cx) as (Ex & Dx & Nx).
  destruct (canonical_digits _ _ Cy) as (Ey & Dy & Ny).
  set (X := (inject_Z (Z.pos (mx * my)) * pow2 (ex + ey))%Q).
  assert (EX : (X == (inject_Z (Z.pos mx) * pow2 ex)
                     * (inject_Z (Z.pos my) * pow2 ey))%Q).
  { unfold X. rewrite Pos2Z.inj_mul, inject_Z_mult, pow2_add. ring. }
  pose proof (mantissa_pos mx ex) as Px. pose proof (mantissa_pos my ey) as Py.
  rewrite !B2Q_finite in Hk |- *.
  assert (HX : (X < pow2 k)%Q) by (rewrite EX; destruct sx, sy; lra).
  destruct (round_aux_value (xorb sx sy) (Z.pos (mx * my)) (ex + ey) loc_Exact X k)
    as (v & G & V & _ & B & _); try assumption; try lia.
  - rewrite Pos2Z.inj_mul.
    pose proof (Zdigits2_mul_lower (Z.pos mx) (Z.pos my)). rewrite fexp64_eq. lia.
  - apply Qle_refl.
  - unfold X. apply inject_Z_mul_le. lia.
  - split; [exact G|]. rewrite V. rewrite EX in B.
    destruct sx, sy; cbn [xorb]; lra.
Qed.

End Operations.

(** ** Division and comparison of doubles *)

Section Division.

Local Abbreviation fexp64 := (SpecFloat.fexp F64.prec F64.emax).

Lemma pow2_sub a b : (pow2 (a - b) * pow2 b == pow2 a)%Q.
Proof. rewrite <- pow2_add. now replace (a - b + b) with a by lia. Qed.

(** The quotient of the significands, the dividend shifted to give the
    quotient enough digits. *)
Lemma div_core_spec mx ex my ey :
  fexp64 (Zdigits2 (Z.pos mx) + ex) = ex ->
  exists q e' l,
    SFdiv_core_binary F64.prec F64.emax (Z.pos mx) ex (Z.pos my) ey = (q, e', l)
    /\ 0 <= q
    /\ e' <= fexp64 (Zdigits2 q + e')
    /\ (inject_Z q * pow2 e'
        <= (inject_Z (Z.pos mx) * pow2 ex) / (inject_Z (Z.pos my) * pow2 ey))%Q
    /\ ((inject_Z (Z.pos mx) * pow2 ex) / (inject_Z (Z.pos my) * pow2 ey)
        <= inject_Z (q + 1) * pow2 e')%Q.
Proof.
  intros Cx. destruct (canonical_digits _ _ Cx) as (Ex & Dx & Nx).
  unfold SFdiv_core_binary.
  set (d1 := Zdigits2 (Z.pos mx)) in *. set (d2 := Zdigits2 (Z.pos my)) in *.
  assert (Hd2 : 1 <= d2) by (pose proof (Zdigits2_pos (Z.pos my)); unfold d2; lia).
  set (e' := Z.min (fexp64 (d1 + ex - (d2 + ey))) (ex - ey)).
  set (s := ex - ey - e').
  assert (Hs : 0 <= s) by (unfold s, e'; lia).
  set (m' := match s with
             | 0 => Z.pos mx
             | Z.pos _ => Z.shiftl (Z.pos mx) s
             | Z.neg _ => 0
             end).
  assert (Em : m' = Z.pos mx * 2 ^ s).
  { unfold m'. destruct s as [|p|p] eqn:Es; [cbn; lia| |lia].
    now rewrite Z.shiftl_mul_pow2 by lia. }
  clearbody m'.
  pose proof (Z_div_mod m' (Z.pos my) eq_refl) as DM.
  destruct (Z.div_eucl m' (Z.pos my)) as [q r]. destruct DM as [DM1 DM2].
  exists q, e', (new_location (Z.pos my) r). split; [reflexivity|].
  assert (Hp : 0 < 2 ^ s) by (apply Z.pow_pos_nonneg; lia).
  assert (Hq : 0 <= q) by nia.
  split; [exact Hq|]. split.
  - (* the quotient has 53 digits unless the exponent is the least one *)
    rewrite fexp64_eq.
    destruct (Z.le_gt_cases e' (-1074)) as [|He']; [lia|].
    assert (Ee : e' = d1 + ex - (d2 + ey) - 53)
      by (unfold e' in *; rewrite fexp64_eq in *; lia).
    assert (Es : s = d2 - d1 + 53) by (unfold s; lia).
    pose proof (Zdigits2_bounds (Z.pos mx) eq_refl) as [L1 _]. fold d1 in L1.
    pose proof (Zdigits2_bounds (Z.pos my) eq_refl) as [_ U2]. fold d2 in U2.
    assert (Hm' : 2 ^ (d2 + 52) <= m').
    { rewrite Em. replace (d2 + 52) with (d1 - 1 + s) by lia.
      rewrite Z.pow_add_r by lia. nia. }
    assert (Hq52 : 2 ^ 52 <= q).
    { assert (2 ^ 52 * Z.pos my < Z.pos my * (q + 1)); [|nia].
      eapply Z.lt_le_trans with (m := 2 ^ (d2 + 52)); [|lia].
      rewrite (Z.add_comm d2), Z.pow_add_r by lia.
      apply Z.mul_lt_mono_pos_l; lia. }
    assert (Hqp : 0 < q) by lia.
    pose proof (Zdigits2_bounds q Hqp) as [_ Uq].
    assert (52 < Zdigits2 q).
    { apply (Z.pow_lt_mono_r_iff 2); [lia|apply Zdigits2_nonneg|lia]. }
    lia.
  - pose proof (mantissa_pos my ey) as Py.
    assert (Pm : (0 < inject_Z (Z.pos my))%Q)
      by (change 0%Q with (inject_Z 0); rewrite <- Zlt_Qlt; lia).
    assert (EX : ((inject_Z (Z.pos mx) * pow2 ex) / (inject_Z (Z.pos my) * pow2 ey)
                  == inject_Z m' * pow2 e' / inject_Z (Z.pos my))%Q).
    { rewrite Em, scale_pow2 by lia.
      replace (e' + s) with (ex - ey) by (unfold s; lia).
      rewrite <- (pow2_sub ex ey).
      pose proof (pow2_pos ey). field. split; lra. }
    pose proof (pow2_pos e') as Pe.
    rewrite EX. split.
    + apply Qle_shift_div_l; [exact Pm|].
      setoid_replace (inject_Z q * pow2 e' * inject_Z (Z.pos my))%Q
        with (inject_Z (q * Z.pos my) * pow2 e')%Q
        by (rewrite inject_Z_mult; ring).
      apply inject_Z_mul_le. lia.
    + apply Qle_shift_div_r; [exact Pm|].
      setoid_replace (inject_Z (q + 1) * pow2 e' * inject_Z (Z.pos my))%Q
        with (inject_Z ((q + 1) * Z.pos my) * pow2 e')%Q
        by (rewrite inject_Z_mult; ring).
      apply inject_Z_mul_le. nia.
Qed.

Lemma div_spec x y k :
  good x -> good y -> ~ (B2Q y == 0)%Q ->
  (- pow2 k < B2Q x / B2Q y < pow2 k)%Q ->
  -1074 <= k <= 1023 ->
  good (x / y)%f64
  /\ (B2Q x / B2Q y - pow2 (Z.max (k - 53) (-1074))
      <= B2Q (x / y)%f64
      <= B2Q x / B2Q y + pow2 (Z.max (k - 53) (-1074)))%Q.
Proof.
  intros Gx Gy Ny Hk Hkr. pose proof (pow2_pos (Z.max (k - 53) (-1074))) as Heta.
  destruct y as [sy|sy| |sy my ey]; try (destruct Gy as [F _]; discriminate F).
  { exfalso. apply Ny. reflexivity. }
  destruct x as [sx|sx| |sx mx ex]; try (destruct Gx as [F _]; discriminate F).
  - split; [apply good_zero|]. cbn [F64.div SFdiv]. rewrite !B2Q_zero.
    unfold Qdiv. lra.
  - unfold F64.div, SFdiv.
    apply good_finite in Gx. destruct Gx as [Cx _].
    destruct (div_core_spec mx ex my ey Cx) as (q & e' & l & -> & Hq & He & Lo & Hi).
    set (X := ((inject_Z (Z.pos mx) * pow2 ex)
               / (inject_Z (Z.pos my) * pow2 ey))%Q) in *.
    pose proof (mantissa_pos mx ex) as Px. pose proof (mantissa_pos my ey) as Py.
    assert (EX : (B2Q (S754_finite sx mx ex) / B2Q (S754_finite sy my ey)
                  == if xorb sx sy then - X else X)%Q).
    { assert (Pm : (0 < inject_Z (Z.pos my))%Q)
        by (change 0%Q with (inject_Z 0); rewrite <- Zlt_Qlt; lia).
      pose proof (pow2_pos ey) as Pe.
      rewrite !B2Q_finite. unfold X.
      destruct sx, sy; cbn [xorb]; field; repeat split; lra. }
    rewrite EX in Hk |- *.
    assert (HX : (0 < X)%Q).
    { unfold X. apply Qlt_shift_div_l; [exact Py|]. lra. }
    destruct (round_aux_value (xorb sx sy) q e' l X k)
      as (v & G & V & _ & B & _); try assumption; try lia.
    + destruct (xorb sx sy); lra.
    + split; [exact G|]. rewrite V. destruct (xorb sx sy); lra.
Qed.

End Division.

Section Comparison.

Local Abbreviation fexp64 := (SpecFloat.fexp F64.prec F64.emax).

Lemma inject_Z_mul_lt a b e :
  a < b -> (inject_Z a * pow2 e < inject_Z b * pow2 e)%Q.
Proof.
  intros H. apply Qmult_lt_r; [apply pow2_pos|]. now rewrite <- Zlt_Qlt.
Qed.

(** Among canonical significands the smaller exponent is the smaller
    number. *)
Lemma canonical_lt m1 e1 m2 e2 :
  fexp64 (Zdigits2 (Z.pos m1) + e1) = e1 ->
  fexp64 (Zdigits2 (Z.pos m2) + e2) = e2 ->
  e1 < e2 ->
  (inject_Z (Z.pos m1) * pow2 e1 < inject_Z (Z.pos m2) * pow2 e2)%Q.
Proof.
  intros C1 C2 H.
  destruct (canonical_digits _ _ C1) as (E1 & D1 & _).
  destruct (canonical_digits _ _ C2) as (E2 & _ & N2).
  specialize (N2 ltac:(lia)).
  pose proof (Zdigits2_bounds (Z.pos m1) eq_refl) as [_ U1].
  pose proof (Zdigits2_bounds (Z.pos m2) eq_refl) as [L2 _].
  rewrite N2 in L2. change (2 ^ (53 - 1)) with (2 ^ 52) in L2.
  assert (U1' : Z.pos m1 < 2 ^ 53).
  { eapply Z.lt_le_trans; [exact U1|]. apply Z.pow_le_mono_r; lia. }
  apply Qlt_le_trans with (y := (inject_Z (2 ^ 53) * pow2 e1)%Q);
    [apply inject_Z_mul_lt, U1'|].
  apply Qle_trans with (y := (inject_Z (2 ^ 52) * pow2 e2)%Q);
    [|apply inject_Z_mul_le, L2].
  rewrite !pow2_inject, <- !pow2_add by lia. apply pow2_le. lia.
Qed.

(** Comparison of magnitudes, as [SFcompare] does it. *)
Lemma magnitude_compare m1 e1 m2 e2 :
  fexp64 (Zdigits2 (Z.pos m1) + e1) = e1 ->
  fexp64 (Zdigits2 (Z.pos m2) + e2) = e2 ->
  match match e1 ?= e2 with
        | Lt => Lt
        | Gt => Gt
        | Eq => Pos.compare_cont Eq m1 m2
        end with
  | Lt => (inject_Z (Z.pos m1) * pow2 e1 < inject_Z (Z.pos m2) * pow2 e2)%Q
  | Eq => (inject_Z (Z.pos m1) * pow2 e1 == inject_Z (Z.pos m2) * pow2 e2)%Q
  | Gt => (inject_Z (Z.pos m2) * pow2 e2 < inject_Z (Z.pos m1) * pow2 e1)%Q
  end.
Proof.
  intros C1 C2. destruct (Z.compare_spec e1 e2) as [->|H|H].
  - change (Pos.compare_cont Eq m1 m2) with (m1 ?= m2)%positive.
    destruct (Pos.compare_spec m1 m2) as [->|H|H].
    + reflexivity.
    + apply inject_Z_mul_lt. lia.
    + apply inject_Z_mul_lt. lia.
  - now apply canonical_lt.
  - now apply canonical_lt.
Qed.

Lemma compare_spec x y :
  good x -> good y ->
  match SFcompare x y with
  | Some Lt => (B2Q x < B2Q y)%Q
  | Some Eq => (B2Q x == B2Q y)%Q
  | Some Gt => (B2Q y < B2Q x)%Q
  | None => False
  end.
Proof.
  intros Gx Gy.
  destruct x as [sx|sx| |sx mx ex]; try (destruct Gx as [F _]; discriminate F);
  destruct y as [sy|sy| |sy my ey]; try (destruct Gy as [F _]; discriminate F);
  cbn [SFcompare].
  - reflexivity.
  - pose proof (B2Q_finite sy my ey) as Ey. pose proof (mantissa_pos my ey).
    rewrite B2Q_zero. destruct sy; lra.
  - pose proof (B2Q_finite sx mx ex) as Ex. pose proof (mantissa_pos mx ex).
    rewrite B2Q_zero. destruct sx; lra.
  - apply good_finite in Gx, Gy. destruct Gx as [Cx _], Gy as [Cy _].
    pose proof (magnitude_compare mx ex my ey Cx Cy) as M.
    pose proof (mantissa_pos mx ex). pose proof (mantissa_pos my ey).
    pose proof (B2Q_finite sx mx ex) as Ex.
    pose proof (B2Q_finite sy my ey) as Ey.
    destruct sx, sy; try lra;
      (destruct (ex ?= ey); [destruct (Pos.compare_cont Eq mx my)| |]);
      cbn [CompOpp]; lra.
Qed.

(** [x >= y] is false when [x] is the smaller number. *)
Lemma geb_false x y :
  good x -> good y -> (B2Q x < B2Q y)%Q -> (x >=? y)%f64 = false.
Proof.
  intros Gx Gy H. pose proof (compare_spec y x Gy Gx) as C.
  unfold F64.geb, SFleb. destruct (SFcompare y x) as [[ | | ]|]; try reflexivity; lra.
Qed.

Lemma ltb_true x y :
  good x -> good y -> (B2Q x < B2Q y)%Q -> (x <? y)%f64 = true.
Proof.
  intros Gx Gy H. pose proof (compare_spec x y Gx Gy) as C.
  unfold F64.ltb, SFltb. destruct (SFcompare x y) as [[ | | ]|]; try reflexivity;
    try lra; contradiction.
Qed.

End Comparison.

(** ** The classifier on a constant energy *)

Section ConstantEnergy.

Lemma B2Q_FORGET_FACTOR :
  (B2Q FORGET_FACTOR == 5404319552844595 # 4503599627370496)%Q.
Proof. reflexivity. Qed.

Lemma B2Q_DIVISOR :
  (B2Q (FORGET_FACTOR + ONE)%f64 == 4953959590107546 # 2251799813685248)%Q.
Proof. reflexivity. Qed.

Lemma div_by_DIVISOR x :
  (x / B2Q (FORGET_FACTOR + ONE)%f64
   == x * (2251799813685248 # 4953959590107546))%Q.
Proof. rewrite B2Q_DIVISOR. reflexivity. Qed.

Lemma B2Q_WEAK :
  (B2Q WEAK_ADJUSTMENT == 7205759403792794 # 144115188075855872)%Q.
Proof. reflexivity. Qed.

Lemma B2Q_STRONG :
  (B2Q STRONG_ADJUSTMENT == 7205759403792794 # 9007199254740992)%Q.
Proof. reflexivity. Qed.

Lemma B2Q_STARTING : (B2Q STARTING_THRESHOLD_DB == 15)%Q.
Proof. reflexivity. Qed.

Lemma good_constants :
  good FORGET_FACTOR /\ good (FORGET_FACTOR + ONE)%f64
  /\ good WEAK_ADJUSTMENT /\ good STRONG_ADJUSTMENT
  /\ good STARTING_THRESHOLD_DB.
Proof. repeat split. Qed.

Lemma pow2_14 : (pow2 14 == 16384)%Q.
Proof. reflexivity. Qed.

Lemma eta_14 : (pow2 (Z.max (14 - 53) (-1074)) == 1 # 549755813888)%Q.
Proof. reflexivity. Qed.

(** The operations at the scale of the energies: operands and exact
    result below 2^14 in magnitude, error at most 2^-39. *)
Lemma mul_scaled x y :
  good x -> good y -> (- (16384) < B2Q x * B2Q y < 16384)%Q ->
  good (x * y)%f64
  /\ (B2Q x * B2Q y - (1 # 549755813888) <= B2Q (x * y)%f64
      <= B2Q x * B2Q y + (1 # 549755813888))%Q.
Proof.
  intros Gx Gy H. rewrite <- eta_14.
  apply (mul_spec x y 14 Gx Gy); [rewrite pow2_14; exact H|lia].
Qed.

Lemma add_scaled x y :
  good x -> good y -> (- (16384) < B2Q x + B2Q y < 16384)%Q ->
  good (x + y)%f64
  /\ (B2Q x + B2Q y - (1 # 549755813888) <= B2Q (x + y)%f64
      <= B2Q x + B2Q y + (1 # 549755813888))%Q.
Proof.
  intros Gx Gy H. rewrite <- eta_14.
  apply (add_spec x y 14 Gx Gy); [rewrite pow2_14; exact H|lia].
Qed.

Lemma sub_scaled x y :
  good x -> good y -> (- (16384) < B2Q x - B2Q y < 16384)%Q ->
  good (x - y)%f64
  /\ (B2Q x - B2Q y - (1 # 549755813888) <= B2Q (x - y)%f64
      <= B2Q x - B2Q y + (1 # 549755813888))%Q.
Proof.
  intros Gx Gy H. rewrite <- eta_14.
  apply (sub_spec x y 14 Gx Gy); [rewrite pow2_14; exact H|lia].
Qed.

Lemma div_scaled x y :
  good x -> good y -> ~ (B2Q y == 0)%Q ->
  (- (16384) < B2Q x / B2Q y < 16384)%Q ->
  good (x / y)%f64
  /\ (B2Q x / B2Q y - (1 # 549755813888) <= B2Q (x / y)%f64
      <= B2Q x / B2Q y + (1 # 549755813888))%Q.
Proof.
  intros Gx Gy N H. rewrite <- eta_14.
  apply (div_spec x y 14 Gx Gy N); [rewrite pow2_14; exact H|lia].
Qed.

(** Smoothing keeps the level within 2^-30 of the constant energy. *)
Lemma smooth_tracks c l :
  good c -> good l ->
  (- (4096) <= B2Q c <= 4096)%Q ->
  (- (1 # 1073741824) <= B2Q l - B2Q c <= 1 # 1073741824)%Q ->
  good (smooth l c)
  /\ (- (1 # 1073741824) <= B2Q (smooth l c) - B2Q c <= 1 # 1073741824)%Q.
Proof.
  intros Gc Gl Hc Hl. unfold smooth.
  destruct good_constants as (GF & GD & _).
  destruct (mul_scaled l FORGET_FACTOR Gl GF) as [G1 E1];
    [rewrite B2Q_FORGET_FACTOR; lra|].
  rewrite B2Q_FORGET_FACTOR in E1.
  destruct (add_scaled (l * FORGET_FACTOR)%f64 c G1 Gc) as [G2 E2]; [lra|].
  destruct (div_scaled (l * FORGET_FACTOR + c)%f64 (FORGET_FACTOR + ONE)%f64 G2 GD)
    as [G3 E3].
  - rewrite B2Q_DIVISOR. discriminate.
  - rewrite div_by_DIVISOR. lra.
  - rewrite div_by_DIVISOR in E3. split; [exact G3|]. lra.
Qed.

(** The background follows too, and the level never gets 15 dB above
    it. *)
Lemma adjust_tracks c b l :
  good c -> good b -> good l ->
  (- (4096) <= B2Q c <= 4096)%Q ->
  (- (1 # 1073741824) <= B2Q l - B2Q c <= 1 # 1073741824)%Q ->
  (- (1 # 536870912) <= B2Q b - B2Q c <= 1 # 536870912)%Q ->
  (l - b >=? STARTING_THRESHOLD_DB)%f64 = false
  /\ good (adjust_conditionally_on_change
             b l WEAK_ADJUSTMENT STRONG_ADJUSTMENT)
  /\ (- (1 # 536870912)
      <= B2Q (adjust_conditionally_on_change
                b l WEAK_ADJUSTMENT STRONG_ADJUSTMENT) - B2Q c
      <= 1 # 536870912)%Q.
Proof.
  intros Gc Gb Gl Hc Hl Hb.
  destruct good_constants as (_ & _ & GW & GS & GT).
  destruct (sub_scaled l b Gl Gb) as [Gd Ed]; [lra|].
  split.
  - apply geb_false; [exact Gd|exact GT|]. rewrite B2Q_STARTING. lra.
  - unfold adjust_conditionally_on_change.
    destruct (l - b >? ZERO)%f64.
    + destruct (mul_scaled WEAK_ADJUSTMENT (l - b)%f64 GW Gd) as [Gp Ep];
        [rewrite B2Q_WEAK; lra|].
      rewrite B2Q_WEAK in Ep.
      destruct (add_scaled (WEAK_ADJUSTMENT * (l - b))%f64 b Gp Gb) as [Gr Er];
        [lra|].
      split; [exact Gr|]. lra.
    + destruct (mul_scaled STRONG_ADJUSTMENT (l - b)%f64 GS Gd) as [Gp Ep];
        [rewrite B2Q_STRONG; lra|].
      rewrite B2Q_STRONG in Ep.
      destruct (add_scaled (STRONG_ADJUSTMENT * (l - b))%f64 b Gp Gb) as [Gr Er];
        [lra|].
      split; [exact Gr|]. lra.
Qed.

(** One chunk when the classifier is not speaking. *)
Lemma classify_energy_silent l b fg c :
  (smooth l c - b >=? STARTING_THRESHOLD_DB)%f64 = false ->
  classify_energy (mkCls (Some l) (Some b) fg false) c
  = (mkCls (Some (smooth l c))
           (Some (adjust_conditionally_on_change
                    b (smooth l c) WEAK_ADJUSTMENT STRONG_ADJUSTMENT))
           fg false,
     false).
Proof.
  intros H. unfold classify_energy, smooth in *.
  cbn [level background foreground speaking negb]. now rewrite H.
Qed.

Lemma tracks_step c st :
  good c -> (- (4096) <= B2Q c <= 4096)%Q ->
  tracks c st ->
  tracks c (fst (classify_energy st c))
  /\ snd (classify_energy st c) = false.
Proof.
  intros Gc Hc (Hs & l & b & El & Eb & Gl & Gb & Hl & Hb).
  destruct st as [lv bg fg sp]. cbn [level background speaking] in *. subst.
  destruct (smooth_tracks c l Gc Gl Hc Hl) as [Gl' Hl'].
  destruct (adjust_tracks c b (smooth l c) Gc Gb Gl' Hc Hl' Hb) as (Q & Gb' & Hb').
  rewrite (classify_energy_silent l b fg c Q). cbn [fst snd].
  split; [|reflexivity]. split; [reflexivity|].
  eexists _, _. split; [reflexivity|]. split; [reflexivity|].
  split; [exact Gl'|]. split; [exact Gb'|]. split; [exact Hl'|exact Hb'].
Qed.

(** The first chunk: both estimates start at its energy. *)
Lemma classify_energy_first c :
  classify_energy get_classify_sample c
  = classify_energy (mkCls (Some c) (Some c) ZERO false) c.
Proof. reflexivity. Qed.

Lemma tracks_first c :
  good c -> (- (4096) <= B2Q c <= 4096)%Q ->
  tracks c (fst (classify_energy get_classify_sample c))
  /\ snd (classify_energy get_classify_sample c) = false.
Proof.
  intros Gc Hc. rewrite classify_energy_first. apply tracks_step; try assumption.
  split; [reflexivity|]. exists c, c.
  split; [reflexivity|]. split; [reflexivity|].
  split; [exact Gc|]. split; [exact Gc|]. split; lra.
Qed.

End ConstantEnergy.

(** ** Chunks of constant energy *)

Section Settled.

Lemma sub_nan x : (x - S754_nan)%f64 = S754_nan.
Proof. destruct x; reflexivity. Qed.

Lemma mul_nan x : (x * S754_nan)%f64 = S754_nan.
Proof. destruct x; reflexivity. Qed.

(** With a NaN for background nothing is ever 15 dB above it, and the
    NaN stays. *)
Lemma numb_step st c :
  numb st ->
  numb (fst (classify_energy st c)) /\ snd (classify_energy st c) = false.
Proof.
  intros [Hs Hb]. destruct st as [lv bg fg sp].
  cbn [speaking background] in Hs, Hb. subst.
  unfold classify_energy, adjust_conditionally_on_change.
  cbn [level background foreground speaking negb].
  rewrite sub_nan. cbn [F64.geb SFleb SFcompare F64.gtb SFltb].
  replace (ZERO <? S754_nan)%f64 with false by reflexivity.
  rewrite mul_nan. cbn [fst snd]. split; [|reflexivity].
  split; reflexivity.
Qed.

(** A first chunk whose energy is not finite leaves a NaN for
    background. *)
Lemma numb_first c :
  finite c = false ->
  numb (fst (classify_energy get_classify_sample c))
  /\ snd (classify_energy get_classify_sample c) = false.
Proof.
  destruct c as [s|[|]| |s m e]; try discriminate; intros _;
    repeat split.
Qed.

Lemma settled_first c :
  meter_energy c ->
  settled c (fst (classify_energy get_classify_sample c))
  /\ snd (classify_energy get_classify_sample c) = false.
Proof.
  intros [H|[Gc Hc]].
  - destruct (numb_first c H) as [N E]. split; [right; exact N|exact E].
  - destruct (tracks_first c Gc Hc) as [T E].
    split; [left; auto|exact E].
Qed.

Lemma settled_step c st :
  settled c st ->
  settled c (fst (classify_energy st c))
  /\ snd (classify_energy st c) = false.
Proof.
  intros [(Gc & Hc & T)|N].
  - destruct (tracks_step c st Gc Hc T) as [T' E].
    split; [left; auto|exact E].
  - destruct (numb_step st c N) as [N' E]. split; [right; exact N'|exact E].
Qed.

Lemma settled_all c n : forall st,
  settled c st ->
  snd (classify_all st (repeat c n)) = repeat false n.
Proof.
  induction n as [|n IH]; intros st H; [reflexivity|].
  cbn [repeat classify_all].
  destruct (settled_step c st H) as [H' E].
  destruct (classify_energy st c) as [st1 d]. cbn [fst snd] in H', E. subst d.
  specialize (IH st1 H').
  destruct (classify_all st1 (repeat c n)) as [st2 ds]. cbn [snd] in *.
  now rewrite IH.
Qed.

(** On chunks of one and the same energy the classifier never reports
    speech. *)
Lemma constant_energy_decisions c n :
  meter_energy c ->
  snd (classify_all get_classify_sample (repeat c n)) = repeat false n.
Proof.
  intros H. destruct n as [|n]; [reflexivity|].
  cbn [repeat classify_all].
  destruct (settled_first c H) as [H' E].
  destruct (classify_energy get_classify_sample c) as [st1 d].
  cbn [fst snd] in H', E. subst d.
  pose proof (settled_all c n st1 H') as A.
  destruct (classify_all st1 (repeat c n)) as [st2 ds]. cbn [snd] in *.
  now rewrite A.
Qed.

End Settled.

Section MeterRange.

Lemma B2Q_TEN : (B2Q TEN == 10)%Q.
Proof. reflexivity. Qed.

Lemma good_TEN : good TEN.
Proof. split; reflexivity. Qed.

Lemma mul_not_finite x y :
  finite x = false -> finite (x * y)%f64 = false.
Proof.
  intros Hx.
  destruct x as [sx|sx| |sx mx ex]; try discriminate;
    destruct y as [sy|sy| |sy my ey]; reflexivity.
Qed.

(** Whatever the chunk, its energy is one the classifier is proved for. *)
Lemma energy_in_range np_log10 arr :
  log10_like np_log10 ->
  meter_energy (sample_decibel_energy np_log10 arr).
Proof.
  intros H. unfold sample_decibel_energy.
  destruct (H (power arr)) as [N|[G B]].
  - left. apply mul_not_finite, N.
  - right.
    destruct (mul_scaled (np_log10 (power arr)) TEN G good_TEN) as [G' E];
      [rewrite B2Q_TEN; lra|].
    rewrite B2Q_TEN in E. split; [exact G'|]. lra.
Qed.

End MeterRange.

Section CoarseLog10.

Lemma B2Q_LOG10_2 : (B2Q LOG10_2 == 5422874383309362 # 18014398509481984)%Q.
Proof. reflexivity. Qed.

Lemma good_LOG10_2 : good LOG10_2.
Proof. split; reflexivity. Qed.

Lemma pow2_0 : (pow2 0 == 1)%Q.
Proof. reflexivity. Qed.

(** The stand-in stays within the range assumed of [np.log10]. *)
Lemma coarse_log10_like : log10_like coarse_log10.
Proof.
  intros p. destruct p as [s|[|]| |[|] m e]; try (left; reflexivity).
  unfold coarse_log10. destruct (F64.valid (S754_finite false m e)) eqn:V;
    [|left; reflexivity].
  right.
  assert (G : good (S754_finite false m e)) by (split; [reflexivity|exact V]).
  apply good_finite in G. destruct G as [C Hi].
  destruct (canonical_digits _ _ C) as (Lo & D & _).
  set (z := Zdigits2 (Z.pos m) + e - 1).
  assert (Hz : -1074 <= z <= 1023) by (unfold z; lia).
  assert (Qz : (-1074 # 1 <= inject_Z z <= 1023 # 1)%Q).
  { split; [change (-1074 # 1)%Q with (inject_Z (-1074))
           |change (1023 # 1)%Q with (inject_Z 1023)];
      rewrite <- Zle_Qle; lia. }
  destruct (binary_normalize_value z 0 14) as [Gz Ez].
  { rewrite pow2_0, pow2_14. lra. }
  { lia. }
  rewrite pow2_0, eta_14 in Ez. fold (F64.of_Z z) in Gz, Ez.
  destruct (mul_scaled (F64.of_Z z) LOG10_2 Gz good_LOG10_2) as [Gr Er];
    [rewrite B2Q_LOG10_2; lra|].
  rewrite B2Q_LOG10_2 in Er. split; [exact Gr|]. lra.
Qed.

End CoarseLog10.

(** C10: the first chunk a fresh classifier sees is classified as
    non-speech, whatever the chunk; when its energy is finite, level and
    background end within 2^-30 and 2^-29 of it. *)
Theorem C10_first_chunk_not_speech
  (np_log10 : F64.float -> F64.float) (arr : list Z) :
  log10_like np_log10 ->
  let r := classify_frame np_log10 get_classify_sample arr in
  snd r = false
  /\ (finite (sample_decibel_energy np_log10 arr) = true ->
      tracks (sample_decibel_energy np_log10 arr) (fst r)).
Proof.
  intros H. cbv zeta. unfold classify_frame.
  set (c := sample_decibel_energy np_log10 arr).
  destruct (energy_in_range np_log10 arr H) as [N|[G B]]; fold c in N || fold c in G, B.
  - destruct (numb_first c N) as [_ E]. split; [exact E|].
    intros F. rewrite F in N. discriminate.
  - destruct (tracks_first c G B) as [T E]. split; [exact E|]. intros _. exact T.
Qed.

Lemma C10_first_chunk_not_speech_witness :
  snd (classify_frame coarse_log10 get_classify_sample [32767; -32768; 12])
  = false.
Proof.
  exact (proj1 (C10_first_chunk_not_speech
                  coarse_log10 [32767; -32768; 12] coarse_log10_like)).
Defined.

(** An energy no chunk has: at 2^1023 the smoothing overflows, the level
    is infinite, and the first chunk is classified as speech. *)
Remark first_chunk_speech_on_overflow :
  snd (classify_energy get_classify_sample (F64.of_Z (2 ^ 1023))) = true.
Proof. vm_compute. reflexivity. Qed.

(** C5: on chunks that all have the same energy the classifier reports
    non-speech every time, and the recorder stays [PENDING], however
    long the sequence. *)
Theorem C5_constant_energy_stays_pending
  (np_log10 : F64.float -> F64.float) (chunks : list (list Z)) (c : F64.float) :
  log10_like np_log10 ->
  (forall a, In a chunks -> sample_decibel_energy np_log10 a = c) ->
  snd (classify_chunks np_log10 get_classify_sample chunks)
  = repeat false (length chunks)
  /\ observed_statuses get_recording_status
       (snd (classify_chunks np_log10 get_classify_sample chunks))
     = repeat PENDING (length chunks).
Proof.
  intros H Hc.
  assert (E : map (sample_decibel_energy np_log10) chunks
              = repeat c (length chunks)).
  { clear H. induction chunks as [|a chunks IH]; [reflexivity|].
    cbn [map length repeat]. rewrite (Hc a) by (left; reflexivity).
    f_equal. apply IH. intros b Hb. apply Hc. right. exact Hb. }
  assert (D : snd (classify_chunks np_log10 get_classify_sample chunks)
              = repeat false (length chunks)).
  { unfold classify_chunks. rewrite E.
    destruct chunks as [|a chunks]; [reflexivity|].
    apply constant_energy_decisions.
    rewrite <- (Hc a) by (left; reflexivity). apply energy_in_range, H. }
  split; [exact D|]. rewrite D.
  rewrite <- (app_nil_r (repeat false (length chunks))).
  rewrite observed_pending by reflexivity. cbn [observed_statuses].
  apply app_nil_r.
Qed.

Lemma C5_constant_energy_stays_pending_witness :
  snd (classify_chunks coarse_log10 get_classify_sample
         [[3; -4]; [-4; 3]; [3; -4]])
  = [false; false; false].
Proof.
  refine (proj1 (C5_constant_energy_stays_pending
                   coarse_log10 [[3; -4]; [-4; 3]; [3; -4]]
                   (sample_decibel_energy coarse_log10 [3; -4])
                   coarse_log10_like _)).
  intros a [<-|[<-|[<-|[]]]]; reflexivity.
Defined.

(* ================================================================= *)
(** * Further properties *)

Section HistoryFacts.

Lemma silent_tail_snoc ds d :
  silent_tail (ds ++ [d]) = if d then 0%nat else S (silent_tail ds).
Proof. unfold silent_tail. rewrite rev_app_distr. destruct d; reflexivity. Qed.

Lemma heard_snoc ds d : heard (ds ++ [d]) = heard ds || d.
Proof. unfold heard. rewrite existsb_app. cbn. now rewrite orb_false_r. Qed.

Lemma recording_state_after_snoc ds d :
  recording_state_after (ds ++ [d])
  = fst (recording_status (recording_state_after ds) d).
Proof. unfold recording_state_after. now rewrite fold_left_app. Qed.

(** The closure has started once it heard speech, and its timer then
    counts the non-speech decisions since the last speech decision. *)
Lemma recording_state_after_spec ds :
  started (recording_state_after ds) = heard ds
  /\ off_time (recording_state_after ds)
     = if heard ds then CHUNK_MS * Z.of_nat (silent_tail ds) else 0.
Proof.
  induction ds as [|d ds IH] using rev_ind; [split; reflexivity|].
  rewrite recording_state_after_snoc, heard_snoc, silent_tail_snoc.
  destruct IH as [Hs Ho]. unfold recording_status. rewrite Hs.
  destruct (heard ds); cbn [negb orb].
  - destruct d.
    + destruct (0 >? MAX_PAUSE_MS); cbn; auto.
    + destruct (_ >? _); cbn [fst started off_time]; (split; [reflexivity|]);
        rewrite Ho; lia.
  - destruct d; cbn [fst started off_time]; split; auto.
Qed.

End HistoryFacts.

(** X1: what the closure of [get_recording_status] returns depends on
    the history of decisions as follows: [PENDING] as long as no speech
    was reported; after that [STOPPING] whenever the history ends with
    more than [MAX_PAUSE_MS / CHUNK_MS] non-speech decisions, and
    [GOING] otherwise.  So the closure does not latch: called with a
    speech decision after [STOPPING], it returns [GOING] again. *)
Theorem X1_status_of_history (ds : list bool) (d : bool) :
  snd (recording_status (recording_state_after ds) d)
  = if heard (ds ++ [d])
    then if (PAUSE_CHUNKS <? silent_tail (ds ++ [d]))%nat then STOPPING else GOING
    else PENDING.
Proof.
  destruct (recording_state_after_spec ds) as [Hs Ho].
  rewrite heard_snoc, silent_tail_snoc. unfold recording_status.
  rewrite Hs, Ho. destruct (heard ds); cbn [negb orb].
  - destruct d; [reflexivity|].
    change PAUSE_CHUNKS with 100%nat. unfold CHUNK_MS, MAX_PAUSE_MS.
    destruct (Nat.ltb_spec 100 (S (silent_tail ds))) as [H|H].
    + replace (_ >? _) with true by (symmetry; apply Z.gtb_lt; lia).
      reflexivity.
    + replace (_ >? _) with false
        by (symmetry; rewrite Z.gtb_ltb; apply Z.ltb_ge; lia).
      reflexivity.
  - destruct d; reflexivity.
Qed.

(** The closure after a stop: silence keeps it at [STOPPING], speech
    brings [GOING] back. *)
Remark status_after_stop :
  let ds := true :: repeat false 101 in
  snd (recording_status (recording_state_after (true :: repeat false 100)) false)
  = STOPPING
  /\ snd (recording_status (recording_state_after ds) false) = STOPPING
  /\ snd (recording_status (recording_state_after ds) true) = GOING.
Proof. repeat split. Qed.

Section StopFacts.

(** A started recorder stops at the first chunk that completes a pause
    of more than [MAX_PAUSE_MS]: either the pause under way is
    completed, or speech is reported once more and a whole pause
    follows. *)
Lemma stop_after_start ds : forall (r : nat) g,
  (r <= PAUSE_CHUNKS)%nat ->
  observed_statuses (mkRec (MAX_PAUSE_MS - CHUNK_MS * Z.of_nat r) true) ds
  = g ++ [STOPPING] ->
  (firstn (S (length g)) ds = repeat false (S r) /\ length g = r)
  \/ exists pre,
       firstn (S (length g)) ds = pre ++ true :: repeat false (S PAUSE_CHUNKS)
       /\ length g = (length pre + S PAUSE_CHUNKS)%nat.
Proof.
  induction ds as [|d ds IH]; intros r g Hr E.
  - destruct g; discriminate.
  - destruct d.
    + rewrite observed_speech_1 in E.
      destruct g as [|x g]; [discriminate|]. injection E as <- E.
      change (mkRec 0 true)
        with (mkRec (MAX_PAUSE_MS - CHUNK_MS * Z.of_nat PAUSE_CHUNKS) true) in E.
      right. destruct (IH PAUSE_CHUNKS g (le_n _) E) as [[F L]|(pre & F & L)].
      * exists []. cbn [length app]. rewrite firstn_cons, F. split; [reflexivity|]. lia.
      * exists (true :: pre). cbn [length app]. rewrite firstn_cons, F.
        split; [reflexivity|]. lia.
    + cbn [observed_statuses] in E. unfold recording_status in E.
      cbn [started off_time negb] in E.
      destruct r as [|r].
      * replace (MAX_PAUSE_MS - CHUNK_MS * Z.of_nat 0 + CHUNK_MS >? MAX_PAUSE_MS)
          with true in E by (symmetry; apply Z.gtb_lt; reflexivity).
        destruct g as [|x [|y g]]; try discriminate.
        left. split; reflexivity.
      * replace (MAX_PAUSE_MS - CHUNK_MS * Z.of_nat (S r) + CHUNK_MS >? MAX_PAUSE_MS)
          with false in E
          by (unfold MAX_PAUSE_MS, CHUNK_MS; symmetry; rewrite Z.gtb_ltb;
              apply Z.ltb_ge; lia).
        replace (MAX_PAUSE_MS - CHUNK_MS * Z.of_nat (S r) + CHUNK_MS)
          with (MAX_PAUSE_MS - CHUNK_MS * Z.of_nat r) in E by lia.
        destruct g as [|x g]; [discriminate|]. injection E as <- E.
        destruct (IH r g ltac:(lia) E) as [[F L]|(pre & F & L)].
        -- left. cbn [length]. rewrite firstn_cons, F. split; [reflexivity|]. lia.
        -- right. exists (false :: pre). cbn [length app]. rewrite firstn_cons, F.
           split; [reflexivity|]. lia.
Qed.

(** The same from a fresh closure. *)
Lemma stop_structure ds : forall g,
  observed_statuses get_recording_status ds = g ++ [STOPPING] ->
  exists pre,
    firstn (S (length g)) ds = pre ++ true :: repeat false (S PAUSE_CHUNKS)
    /\ length g = (length pre + S PAUSE_CHUNKS)%nat
    /\ g = repeat PENDING (silent_run ds)
           ++ repeat GOING (length g - silent_run ds)
    /\ (silent_run ds <= length pre)%nat.
Proof.
  induction ds as [|d ds IH]; intros g E.
  - destruct g; discriminate.
  - destruct d.
    + cbn [observed_statuses] in E.
      rewrite recording_status_start in E by reflexivity.
      destruct g as [|x g]; [discriminate|]. injection E as <- E.
      cbn [off_time get_recording_status] in E.
      destruct (going_phase ds (mkRec 0 true) eq_refl) as (b & t & Eb & Ht).
      assert (Hg : g = repeat GOING (length g)).
      { rewrite Eb in E. destruct Ht as [->| ->].
        - rewrite app_nil_r in E. exfalso.
          assert (In STOPPING (repeat GOING b))
            by (rewrite E; apply in_or_app; right; left; reflexivity).
          apply repeat_spec in H. discriminate.
        - apply app_inj_tail in E. destruct E as [<- _].
          now rewrite repeat_length. }
      change (mkRec 0 true)
        with (mkRec (MAX_PAUSE_MS - CHUNK_MS * Z.of_nat PAUSE_CHUNKS) true) in E.
      destruct (stop_after_start ds PAUSE_CHUNKS g (le_n _) E)
        as [[F L]|(pre & F & L)].
      * exists []. cbn [length app silent_run repeat].
        rewrite firstn_cons, F, Nat.sub_0_r. repeat split; try lia.
        cbn [repeat]. f_equal. exact Hg.
      * exists (true :: pre). cbn [length app silent_run repeat].
        rewrite firstn_cons, F, Nat.sub_0_r. repeat split; try lia.
        cbn [repeat]. f_equal. exact Hg.
    + cbn [observed_statuses] in E.
      rewrite recording_status_pending in E by reflexivity.
      destruct g as [|x g]; [discriminate|]. injection E as <- E.
      destruct (IH g E) as (pre & F & L & G & P).
      exists (false :: pre). cbn [length app silent_run repeat].
      rewrite firstn_cons, F. repeat split; try lia.
      cbn [Nat.sub]. cbn [app]. f_equal. exact G.
Qed.

End StopFacts.

(** X2: the loop sees [STOPPING] only on the chunk that completes a
    pause: the decisions up to it end with a speech decision followed by
    [MAX_PAUSE_MS / CHUNK_MS + 1] non-speech decisions.  [GOING] was
    seen on that speech decision and on all but the last of the
    non-speech ones, so a recording that stops has recorded at least
    [MAX_PAUSE_MS / CHUNK_MS + 1] chunks. *)
Theorem X2_stop_completes_pause (ds : list bool) (a b : nat) :
  observed_statuses get_recording_status ds
  = repeat PENDING a ++ repeat GOING b ++ [STOPPING] ->
  (S PAUSE_CHUNKS <= b)%nat
  /\ exists pre,
       firstn (a + b + 1) ds = pre ++ true :: repeat false (S PAUSE_CHUNKS)
       /\ (a + b = length pre + S PAUSE_CHUNKS)%nat
       /\ (a <= length pre)%nat.
Proof.
  intros E. rewrite app_assoc in E.
  destruct (stop_structure ds _ E) as (pre & F & L & G & P).
  rewrite length_app, !repeat_length in *.
  assert (Ha : a = silent_run ds).
  { clear - G. revert G. generalize (a + b - silent_run ds)%nat.
    generalize (silent_run ds). revert b.
    induction a as [|a IH]; intros b n m G.
    - destruct n; [reflexivity|]. destruct b; discriminate.
    - destruct n.
      + destruct m; discriminate.
      + cbn in G. injection G as G. f_equal. eapply IH, G. }
  subst a. split; [lia|]. exists pre.
  replace (silent_run ds + b + 1)%nat with (S (silent_run ds + b)) by lia.
  auto.
Qed.

Lemma X2_stop_completes_pause_witness :
  (S PAUSE_CHUNKS <= 102)%nat.
Proof.
  exact (proj1 (X2_stop_completes_pause
                  (repeat false 3 ++ repeat true 2 ++ repeat false 105) 3 102
                  eq_refl)).
Defined.

(** ** The loop and the channel *)

Section LoopFacts.

Variable np_log10 : F64.float -> F64.float.

(** The loop takes the entries in the order of their arrival, each one
    once: what was queued and what arrived is, in this order, what the
    loop took, then possibly one entry that [np.frombuffer] rejected,
    then what is still queued. *)
Lemma main_loop_fifo s : forall st q obs,
  exists (k : nat) taken bad,
    (k <= length s)%nat
    /\ q ++ concat (firstn k s)
       = taken ++ bad ++ channel (main_loop np_log10 st q s obs)
    /\ map fst (observed (main_loop np_log10 st q s obs))
       = map fst obs ++ map fst taken
    /\ (bad = []
        \/ exists e, bad = [e] /\ frombuffer_int16 (fst e) = None
                     /\ outcome (main_loop np_log10 st q s obs) = Raised ValueError).
Proof.
  induction s as [|arrivals s IH]; intros st q obs; cbn [main_loop].
  - exists 0%nat, [], []. cbn. rewrite !app_nil_r. auto.
  - destruct (get q arrivals) as [e|[[data n] q']] eqn:G.
    { exists 0%nat, [], []. cbn. rewrite !app_nil_r. repeat split; auto. lia. }
    apply get_some in G.
    destruct (frombuffer_int16 data) as [arr|] eqn:F.
    2:{ exists 1%nat, [], [(data, n)]. cbn [firstn concat app channel observed outcome map length].
        rewrite !app_nil_r. split; [lia|]. split; [exact G|]. split; [reflexivity|].
        right. eexists. split; [reflexivity|]. split; [exact F|reflexivity]. }
    destruct (classify_frame np_log10 (classify_sample st) arr) as [cls is_speech].
    destruct (recording_status (rec_status st) is_speech) as [rs status].
    assert (Step : forall r : Run,
      (exists (k : nat) taken bad,
         (k <= length s)%nat
         /\ q' ++ concat (firstn k s) = taken ++ bad ++ channel r
         /\ map fst (observed r) = map fst (obs ++ [(data, status)]) ++ map fst taken
         /\ (bad = []
             \/ exists e, bad = [e] /\ frombuffer_int16 (fst e) = None
                          /\ outcome r = Raised ValueError)) ->
      exists (k : nat) taken bad,
         (k <= length (arrivals :: s))%nat
         /\ q ++ concat (firstn k (arrivals :: s)) = taken ++ bad ++ channel r
         /\ map fst (observed r) = map fst obs ++ map fst taken
         /\ (bad = []
             \/ exists e, bad = [e] /\ frombuffer_int16 (fst e) = None
                          /\ outcome r = Raised ValueError)).
    { intros r (k & taken & bad & Hk & E & O & B).
      exists (S k), ((data, n) :: taken), bad.
      split; [cbn [length]; lia|]. split.
      - rewrite firstn_cons. cbn [concat]. rewrite app_assoc, G.
        cbn [app]. f_equal. exact E.
      - split; [|exact B]. rewrite O, map_app, <- app_assoc. reflexivity. }
    destruct status.
    + apply Step, IH.
    + destruct (going (buffer st) data) as [b' w]. apply Step, IH.
    + apply Step. exists 0%nat, [], []. cbn. rewrite !app_nil_r.
      repeat split; auto. lia.
Qed.

(** The loop only adds to its observations and to the sink. *)
Lemma main_loop_grows s : forall st q obs,
  exists more written,
    observed (main_loop np_log10 st q s obs) = obs ++ more
    /\ out_file (final (main_loop np_log10 st q s obs)) = out_file st ++ written.
Proof.
  induction s as [|arrivals s IH]; intros st q obs; cbn [main_loop].
  - exists [], []. cbn. now rewrite !app_nil_r.
  - destruct (get q arrivals) as [e|[[data n] q']].
    { exists [], []. cbn. now rewrite !app_nil_r. }
    destruct (frombuffer_int16 data) as [arr|].
    2:{ exists [], []. cbn. now rewrite !app_nil_r. }
    destruct (classify_frame np_log10 (classify_sample st) arr) as [cls is_speech].
    destruct (recording_status (rec_status st) is_speech) as [rs status].
    destruct status.
    + destruct (IH (mkLoop cls rs (buffer st) (out_file st)) q'
                   (obs ++ [(data, PENDING)])) as (more & written & -> & ->).
      exists ((data, PENDING) :: more), written.
      rewrite <- app_assoc. auto.
    + destruct (going (buffer st) data) as [b' w].
      destruct (IH (mkLoop cls rs b' (writeframes (out_file st) w)) q'
                   (obs ++ [(data, GOING)])) as (more & written & -> & ->).
      cbn [out_file]. destruct w as [w|]; cbn [writeframes].
      * exists ((data, GOING) :: more), (w ++ written).
        rewrite <- !app_assoc. auto.
      * exists ((data, GOING) :: more), written. rewrite <- app_assoc. auto.
    + exists [(data, STOPPING)], []. cbn. now rewrite app_nil_r.
Qed.

(** A run over a longer schedule is the run over the shorter one,
    continued if it was still running. *)
Lemma main_loop_app s s' : forall st q obs,
  main_loop np_log10 st q (s ++ s') obs
  = let r := main_loop np_log10 st q s obs in
    match outcome r with
    | Running => main_loop np_log10 (final r) (channel r) s' (observed r)
    | _ => r
    end.
Proof.
  induction s as [|arrivals s IH]; intros st q obs; cbn [main_loop app].
  - reflexivity.
  - destruct (get q arrivals) as [e|[[data n] q']]; [reflexivity|].
    destruct (frombuffer_int16 data) as [arr|]; [|reflexivity].
    destruct (classify_frame np_log10 (classify_sample st) arr) as [cls is_speech].
    destruct (recording_status (rec_status st) is_speech) as [rs status].
    destruct status.
    + apply IH.
    + destruct (going (buffer st) data) as [b' w]. apply IH.
    + reflexivity.
Qed.

End LoopFacts.

(** X3: the loop takes the entries of the channel in the order of their
    arrival, each one once, none skipped: the entries queued at the
    start followed by those that arrived during the first [k] retrievals
    are, in this order, the chunks the loop processed, then at most one
    entry of odd length, on which the loop ended with [ValueError], then
    what is still queued. *)
Theorem X3_loop_takes_in_order
  (np_log10 : F64.float -> F64.float) (q : Channel) (s : Schedule) :
  let r := main_run np_log10 q s in
  exists (k : nat) taken bad,
    (k <= length s)%nat
    /\ q ++ concat (firstn k s) = taken ++ bad ++ channel r
    /\ map fst (observed r) = map fst taken
    /\ (bad = []
        \/ exists e, bad = [e] /\ frombuffer_int16 (fst e) = None
                     /\ outcome r = Raised ValueError).
Proof.
  cbv zeta. unfold main_run.
  destruct (main_loop_fifo np_log10 s initial_loop q [])
    as (k & taken & bad & H1 & H2 & H3 & H4).
  exists k, taken, bad. auto.
Qed.

(** X4: what comes later never changes what the loop has done: with a
    longer schedule the observations and the sink of the run are those
    of the shorter run, extended; and a run that has ended, by [break]
    or by an exception, stays as it is. *)
Theorem X4_run_is_only_extended
  (np_log10 : F64.float -> F64.float) (q : Channel) (s s' : Schedule) :
  let r := main_run np_log10 q s in
  let r' := main_run np_log10 q (s ++ s') in
  (exists more written,
     observed r' = observed r ++ more
     /\ out_file (final r') = out_file (final r) ++ written)
  /\ (outcome r <> Running -> r' = r).
Proof.
  cbv zeta. unfold main_run. rewrite main_loop_app. cbv zeta.
  destruct (outcome (main_loop np_log10 initial_loop q s [])) eqn:O.
  - split; [apply main_loop_grows|]. congruence.
  - split; [|reflexivity]. exists [], []. now rewrite !app_nil_r.
  - split; [|reflexivity]. exists [], []. now rewrite !app_nil_r.
Qed.

(** ** Chunks as arrays of samples *)

Section FrombufferFacts.

Lemma int16_of_bytes_range lo hi : is_int16 (int16_of_bytes lo hi).
Proof.
  unfold int16_of_bytes, is_int16.
  pose proof (Byte.to_N_bounded lo). pose proof (Byte.to_N_bounded hi).
  destruct (_ <? _) eqn:E; [apply Z.ltb_lt in E|apply Z.ltb_ge in E]; lia.
Qed.

Lemma frombuffer_int16_spec data :
  match frombuffer_int16 data with
  | Some arr => len data = 2 * len arr /\ Forall is_int16 arr
  | None => Z.odd (len data) = true
  end.
Proof.
  enough (H : (match frombuffer_int16 data with
               | Some arr => len data = 2 * len arr /\ Forall is_int16 arr
               | None => Z.odd (len data) = true
               end)
              /\ forall x,
                  match frombuffer_int16 (x :: data) with
                  | Some arr => len (x :: data) = 2 * len arr /\ Forall is_int16 arr
                  | None => Z.odd (len (x :: data)) = true
                  end) by apply H.
  induction data as [|y d [IH1 IH2]].
  - split; [split; [reflexivity|constructor]|]. intros x. reflexivity.
  - split; [apply IH2|]. intros x.
    change (frombuffer_int16 (x :: y :: d))
      with (option_map (cons (int16_of_bytes x y)) (frombuffer_int16 d)).
    destruct (frombuffer_int16 d) as [arr|]; cbn [option_map].
    + destruct IH1 as [L F]. split.
      * unfold len in *. cbn [length]. lia.
      * constructor; [apply int16_of_bytes_range|exact F].
    + replace (len (x :: y :: d)) with (len d + 2)
        by (unfold len; cbn [length]; lia).
      rewrite Z.odd_add. rewrite IH1. reflexivity.
Qed.

Lemma frombuffer_int16_some data arr :
  frombuffer_int16 data = Some arr ->
  len data = 2 * len arr /\ Forall is_int16 arr.
Proof. intros E. pose proof (frombuffer_int16_spec data) as H. now rewrite E in H. Qed.

End FrombufferFacts.

(** X6: a chunk the loop reads with [np.frombuffer] is an array of
    16-bit values, one for every [SIZEOF_FRAME] bytes; so, for a chunk
    of less than 2^34 bytes, the 64-bit sum of squares of the energy
    meter does not wrap, and the energy is ten times [np.log10] of the
    mean of the squared samples.  A chunk with an odd number of bytes is
    not read at all. *)
Theorem X6_chunk_samples_are_int16
  (np_log10 : F64.float -> F64.float) (data : bytes) :
  match frombuffer_int16 data with
  | Some arr =>
      len data = SIZEOF_FRAME * len arr
      /\ Forall is_int16 arr
      /\ (len data < 2 ^ 34 ->
          dot64 (astype_int64 arr) (astype_int64 arr) = sum_sq arr
          /\ sample_decibel_energy np_log10 arr
             = (np_log10 (mean_square arr) * TEN)%f64)
  | None => Z.odd (len data) = true
  end.
Proof.
  pose proof (frombuffer_int16_spec data) as H.
  destruct (frombuffer_int16 data) as [arr|]; [|exact H].
  destruct H as [L F]. split; [exact L|]. split; [exact F|]. intros B.
  pose proof (sum_sq_bound arr F) as S.
  assert (E : dot64 (astype_int64 arr) (astype_int64 arr) = sum_sq arr)
    by (rewrite astype_int64_id, dot64_self, wrap64_small by (auto; lia);
        reflexivity).
  split; [exact E|].
  unfold sample_decibel_energy, power, mean_square, len.
  now rewrite E, astype_int64_id.
Qed.

(** ** Whole frames *)

Section FrameFacts.

Variable np_log10 : F64.float -> F64.float.

Lemma going_frames b d :
  (2 | len b) -> (2 | len d) ->
  (2 | len (fst (going b d)))
  /\ match snd (going b d) with
     | Some w => (2 | len w)
     | None => True
     end.
Proof.
  intros [x Hx] [y Hy]. pose proof (going_spec b d) as G.
  destruct (going b d) as [b' [w|]]; cbn [fst snd].
  - destruct G as (_ & _ & Hw & Hb). rewrite len_app in Hw.
    split; [exists 32000; rewrite Hb; reflexivity|].
    exists (x + y - 32000). rewrite Hw. unfold buffer_size.
    change (SAMPLING_RATE * MAX_PAUSE_MS * SIZEOF_FRAME / 1000) with 64000. lia.
  - destruct G as (_ & ->). split; [|exact I]. rewrite len_app.
    exists (x + y). lia.
Qed.

Lemma main_loop_frames s : forall st q obs,
  (2 | len (out_file st)) -> (2 | len (buffer st)) ->
  (2 | len (out_file (final (main_loop np_log10 st q s obs))))
  /\ (2 | len (buffer (final (main_loop np_log10 st q s obs)))).
Proof.
  induction s as [|arrivals s IH]; intros st q obs Ho Hb; cbn [main_loop].
  - auto.
  - destruct (get q arrivals) as [e|[[data n] q']]; [auto|].
    destruct (frombuffer_int16 data) as [arr|] eqn:F; [|auto].
    destruct (classify_frame np_log10 (classify_sample st) arr) as [cls is_speech].
    destruct (recording_status (rec_status st) is_speech) as [rs status].
    destruct status.
    + apply IH; assumption.
    + assert (Hd : (2 | len data)).
      { destruct (frombuffer_int16_some data arr F) as [L _].
        exists (len arr). lia. }
      destruct (going_frames (buffer st) data Hb Hd) as [G1 G2].
      destruct (going (buffer st) data) as [b' w]. cbn [fst snd] in G1, G2.
      apply IH; cbn [out_file buffer]; [|exact G1].
      destruct w as [w|]; cbn [writeframes]; [|exact Ho].
      rewrite len_app. now apply Z.divide_add_r.
    + auto.
Qed.

End FrameFacts.

(** X5: frames are never split: at every point of every run the sink
    and the trimming buffer each hold a whole number of frames of
    [SIZEOF_FRAME] bytes, so every call of [writeframes] is given whole
    frames. *)
Theorem X5_whole_frames
  (np_log10 : F64.float -> F64.float) (q : Channel) (s : Schedule) :
  let r := main_run np_log10 q s in
  (SIZEOF_FRAME | len (out_file (final r)))
  /\ (SIZEOF_FRAME | len (buffer (final r))).
Proof.
  cbv zeta. unfold main_run.
  apply main_loop_frames; exists 0; reflexivity.
Qed.

(** ** The warm-up, then the loop *)

Section SessionFacts.

Lemma concat_firstn_S {A} (n : nat) (s : list (list A)) :
  concat (firstn (S n) s) = concat (firstn n s) ++ hd [] (skipn n s).
Proof.
  revert s. induction n as [|n IH]; intros [|a s]; try reflexivity.
  - cbn. now rewrite app_nil_r.
  - rewrite firstn_cons. cbn [concat]. rewrite IH.
    rewrite (firstn_cons n a s). cbn [concat skipn]. now rewrite app_assoc.
Qed.

Lemma tl_skipn {A} (n : nat) (s : list A) : tl (skipn n s) = skipn (S n) s.
Proof.
  revert s. induction n as [|n IH]; intros [|a s]; try reflexivity.
  cbn [skipn]. rewrite IH. reflexivity.
Qed.

(** The retrievals of the warm-up, when none of them times out: what
    they took and what they left is what was queued followed by what
    arrived meanwhile. *)
Lemma discard_gets_stream n : forall q s got,
  d_raised (discard_gets n q s got) = None ->
  d_retrieved (discard_gets n q s got) ++ d_chan (discard_gets n q s got)
  = got ++ q ++ concat (firstn n s)
  /\ d_rest (discard_gets n q s got) = skipn n s.
Proof.
  induction n as [|n IH]; intros q s got; cbn [discard_gets].
  - intros _. cbn. now rewrite app_nil_r.
  - destruct (get q (next_arrivals s)) as [e|[x q']] eqn:G; [discriminate|].
    intros R. destruct (IH _ _ _ R) as [-> ->]. apply get_some in G.
    destruct s as [|a s]; cbn [next_arrivals hd tl] in *.
    + rewrite !firstn_nil, !skipn_nil. cbn [concat].
      rewrite app_nil_r in G. subst q. rewrite <- app_assoc. auto.
    + rewrite firstn_cons. cbn [concat skipn].
      rewrite <- app_assoc. cbn [app].
      rewrite (app_assoc q a), G. auto.
Qed.

(** The warm-up as a whole, when it completes. *)
Lemma discard_first_at_least_stream q n s :
  let r := discard_first_at_least q n s in
  d_raised r = None ->
  d_chan r = []
  /\ exists j : nat,
       d_retrieved r ++ d_cleared r = q ++ concat (firstn j s)
       /\ d_rest r = skipn j s.
Proof.
  cbv zeta. unfold discard_first_at_least.
  destruct (qsize q <? n).
  - destruct (d_raised (discard_gets (Z.to_nat n) q s [])) eqn:R;
      [intros H; rewrite R in H; discriminate|].
    intros _. cbn [d_chan d_retrieved d_cleared d_rest].
    destruct (discard_gets_stream _ _ _ _ R) as [E T]. cbn [app] in E.
    split; [reflexivity|]. exists (S (Z.to_nat n)).
    rewrite app_assoc, E, T, concat_firstn_S, tl_skipn.
    unfold next_arrivals. now rewrite <- app_assoc.
  - intros _. cbn [d_chan d_retrieved d_cleared d_rest d_raised].
    split; [reflexivity|]. exists 1%nat. unfold next_arrivals.
    destruct s as [|a s]; cbn; now rewrite ?app_nil_r.
Qed.

(** The only exception of the warm-up is the time-out of a retrieval. *)
Lemma discard_gets_raises n : forall q s got e,
  d_raised (discard_gets n q s got) = Some e -> e = Empty.
Proof.
  induction n as [|n IH]; intros q s got e; cbn [discard_gets]; [discriminate|].
  destruct (get q (next_arrivals s)) as [e'|[x q']] eqn:G.
  - apply get_timeout in G. destruct G as (-> & _). cbn. congruence.
  - apply IH.
Qed.

Lemma discard_first_at_least_raises q n s e :
  d_raised (discard_first_at_least q n s) = Some e -> e = Empty.
Proof.
  unfold discard_first_at_least.
  destruct (qsize q <? n); [|discriminate].
  destruct (d_raised (discard_gets (Z.to_nat n) q s [])) as [e'|] eqn:R;
    [|discriminate].
  rewrite R. intros [= <-]. exact (discard_gets_raises _ _ _ _ _ R).
Qed.

End SessionFacts.

(** X7: the session of [main] splits the stream of entries, in the order
    of their arrival, into what the warm-up dropped, what the loop
    processed, and what is left.  When the warm-up completes, all that
    was queued when it began and all that arrived during it (its first
    [j] channel operations) was dropped, retrieved or cleared; the loop
    then processed, in order, the entries that arrived after that,
    none skipped.  When the warm-up raises, the exception is
    [queue.Empty] and the loop is not entered. *)
Theorem X7_session_splits_stream
  (np_log10 : F64.float -> F64.float) (q : Channel) (s : Schedule) :
  let d := fst (main_session np_log10 q s) in
  match snd (main_session np_log10 q s) with
  | None => d_raised d = Some Empty
  | Some r =>
      d_raised d = None /\ d_chan d = []
      /\ exists (j k : nat) taken bad,
           d_retrieved d ++ d_cleared d = q ++ concat (firstn j s)
           /\ (k <= length (skipn j s))%nat
           /\ concat (firstn k (skipn j s)) = taken ++ bad ++ channel r
           /\ map fst (observed r) = map fst taken
           /\ (bad = []
               \/ exists e, bad = [e] /\ frombuffer_int16 (fst e) = None
                            /\ outcome r = Raised ValueError)
  end.
Proof.
  cbv zeta. unfold main_session.
  pose proof (discard_first_at_least_stream q N_DISCARD s) as D. cbv zeta in D.
  destruct (d_raised (discard_first_at_least q N_DISCARD s)) as [e|] eqn:R;
    cbn [fst snd].
  - rewrite R. f_equal. exact (discard_first_at_least_raises _ _ _ _ R).
  - destruct (D eq_refl) as (C & j & E & T).
    split; [exact R|]. split; [exact C|]. rewrite C, T.
    destruct (main_loop_fifo np_log10 (skipn j s) initial_loop [] [])
      as (k & taken & bad & H1 & H2 & H3 & H4).
    exists j, k, taken, bad. auto.
Qed.

(** ** What a stopped recording holds *)

Section SpanFacts.

Variable np_log10 : F64.float -> F64.float.

Lemma classify_all_length es : forall st,
  length (snd (classify_all st es)) = length es.
Proof.
  induction es as [|c es IH]; intros st; cbn [classify_all]; [reflexivity|].
  destruct (classify_energy st c) as [st1 d]. specialize (IH st1).
  destruct (classify_all st1 es) as [st2 ds]. cbn [snd length] in *. lia.
Qed.

Lemma decisions_from_length cs obs :
  length (decisions_from np_log10 cs obs) = length obs.
Proof.
  unfold decisions_from, classify_chunks.
  now rewrite classify_all_length, !length_map.
Qed.

Lemma decisions_from_cons cs data status more :
  decisions_from np_log10 cs ((data, status) :: more)
  = snd (classify_frame np_log10 cs (chunk_samples data))
    :: decisions_from np_log10
         (fst (classify_frame np_log10 cs (chunk_samples data))) more.
Proof.
  unfold decisions_from, classify_chunks, classify_frame.
  cbn [map fst classify_all].
  destruct (classify_energy cs _) as [st1 d]. cbn [fst snd].
  destruct (classify_all st1 _) as [st2 ds]. reflexivity.
Qed.

(** The statuses a run observes are those of the state machine on the
    decisions the classifier takes on the chunks observed. *)
Lemma main_loop_decisions s : forall st q obs,
  exists more,
    observed (main_loop np_log10 st q s obs) = obs ++ more
    /\ map snd more
       = observed_statuses (rec_status st)
           (decisions_from np_log10 (classify_sample st) more).
Proof.
  induction s as [|arrivals s IH]; intros st q obs; cbn [main_loop].
  - exists []. cbn. now rewrite app_nil_r.
  - destruct (get q arrivals) as [e|[[data n] q']].
    { exists []. cbn. now rewrite app_nil_r. }
    destruct (frombuffer_int16 data) as [arr|] eqn:F.
    2:{ exists []. cbn. now rewrite app_nil_r. }
    assert (A : chunk_samples data = arr) by (unfold chunk_samples; now rewrite F).
    destruct (classify_frame np_log10 (classify_sample st) arr)
      as [cls is_speech] eqn:C.
    destruct (recording_status (rec_status st) is_speech) as [rs status] eqn:R.
    destruct status.
    + destruct (IH (mkLoop cls rs (buffer st) (out_file st)) q'
                   (obs ++ [(data, PENDING)])) as (more & -> & E).
      exists ((data, PENDING) :: more). rewrite <- app_assoc.
      split; [reflexivity|].
      rewrite decisions_from_cons, A, C. cbn [fst snd map observed_statuses].
      rewrite R. f_equal. exact E.
    + destruct (going (buffer st) data) as [b' w].
      destruct (IH (mkLoop cls rs b' (writeframes (out_file st) w)) q'
                   (obs ++ [(data, GOING)])) as (more & -> & E).
      exists ((data, GOING) :: more). rewrite <- app_assoc.
      split; [reflexivity|].
      rewrite decisions_from_cons, A, C. cbn [fst snd map observed_statuses].
      rewrite R. f_equal. exact E.
    + exists [(data, STOPPING)]. split; [reflexivity|].
      rewrite decisions_from_cons, A, C. cbn [fst snd map observed_statuses].
      rewrite R. reflexivity.
Qed.

Lemma main_run_decisions q s :
  map snd (observed (main_run np_log10 q s))
  = observed_statuses get_recording_status
      (run_decisions np_log10 (observed (main_run np_log10 q s))).
Proof.
  unfold main_run, run_decisions.
  destruct (main_loop_decisions s initial_loop q []) as (more & -> & E).
  exact E.
Qed.

Lemma appended_app o1 o2 : appended (o1 ++ o2) = appended o1 ++ appended o2.
Proof. unfold appended. now rewrite filter_app, map_app, concat_app. Qed.

Lemma appended_going o :
  map snd o = repeat GOING (length o) -> appended o = concat (map fst o).
Proof.
  unfold appended. induction o as [|[d st] o IH]; [reflexivity|].
  cbn [map snd length repeat filter]. intros [= -> E].
  cbn [RecordingStatus_eqb map concat fst]. now rewrite IH.
Qed.

Lemma appended_pending o :
  map snd o = repeat PENDING (length o) -> appended o = [].
Proof.
  unfold appended. induction o as [|[d st] o IH]; [reflexivity|].
  cbn [map snd length repeat filter]. intros [= -> E].
  cbn [RecordingStatus_eqb]. now apply IH.
Qed.

Lemma len_concat_chunks (o : list (bytes * RecordingStatus)) c :
  (forall p, In p o -> len (fst p) = c) ->
  len (concat (map fst o)) = c * Z.of_nat (length o).
Proof.
  induction o as [|p o IH]; intros H; [cbn; lia|].
  cbn [map concat length]. rewrite len_app, IH, (H p).
  - lia.
  - left. reflexivity.
  - intros p' Hp. apply H. right. exact Hp.
Qed.

Lemma app_inv_len {A} (a b c d : list A) :
  a ++ b = c ++ d -> length b = length d -> a = c /\ b = d.
Proof.
  intros E L.
  assert (La : length a = length c).
  { apply (f_equal (@length _)) in E. rewrite !length_app in E. lia. }
  revert c E La. induction a as [|x a IH]; intros [|y c] E La; try discriminate.
  - auto.
  - injection E as -> E. destruct (IH c E) as [-> ->]; [cbn in La; lia|auto].
Qed.

End SpanFacts.

(** X8: what a recording that stopped holds, when every chunk has the
    [CHUNK_BYTES] bytes of the stream's configuration.  The chunks the
    loop saw are some with status [PENDING], then the recorded ones,
    then [PAUSE_CHUNKS] chunks of the closing pause, then the chunk on
    which it stopped.  The sink holds exactly the recorded ones and the
    buffer, which is not written, the pause.  The classifier reported
    speech on the last recorded chunk and non-speech on every chunk
    after it: the file ends with the last chunk classified as speech. *)
Theorem X8_sink_ends_with_last_speech
  (np_log10 : F64.float -> F64.float) (q : Channel) (s : Schedule) :
  let r := main_run np_log10 q s in
  outcome r = Stopped ->
  (forall p, In p (observed r) -> len (fst p) = CHUNK_BYTES) ->
  exists pend rec pause last,
    observed r = pend ++ rec ++ pause ++ [(last, STOPPING)]
    /\ map snd pend = repeat PENDING (length pend)
    /\ map snd (rec ++ pause) = repeat GOING (length (rec ++ pause))
    /\ length pause = PAUSE_CHUNKS
    /\ out_file (final r) = concat (map fst rec)
    /\ buffer (final r) = concat (map fst pause)
    /\ exists before,
         run_decisions np_log10 (observed r)
         = before ++ true :: repeat false (S PAUSE_CHUNKS)
         /\ length (pend ++ rec) = S (length before).
Proof.
  intros r Hstop Hlen.
  destruct (main_loop_stopped np_log10 s initial_loop q [] Hstop) as (obs0 & last & O).
  fold (main_run np_log10 q s) in O. fold r in O.
  pose proof (main_run_decisions np_log10 q s) as D. fold r in D.
  pose proof (decisions_from_length np_log10 get_classify_sample (observed r)) as DL.
  fold (run_decisions np_log10 (observed r)) in DL.
  set (ds := run_decisions np_log10 (observed r)) in *.
  rewrite O, map_app in D. cbn [map snd] in D. symmetry in D.
  destruct (stop_structure ds _ D) as (pre & F & L & G & P).
  rewrite length_map in F, L, G.
  rewrite O, length_app in DL. cbn [length] in DL.
  rewrite firstn_all2 in F by lia.
  apply map_eq_app in G. destruct G as (pend & goings & -> & Gp & Gg).
  assert (Lp : length pend = silent_run ds)
    by (apply (f_equal (@length _)) in Gp;
        now rewrite length_map, repeat_length in Gp).
  assert (Lg : length goings = (length pre + S PAUSE_CHUNKS - silent_run ds)%nat).
  { apply (f_equal (@length _)) in Gg.
    rewrite length_map, repeat_length, length_app in Gg.
    rewrite length_app in L. lia. }
  rewrite <- Lp in Gp.
  assert (Gg' : map snd goings = repeat GOING (length goings)).
  { rewrite Gg. f_equal. rewrite length_app in *. lia. }
  clear Gg.
  set (n := (length goings - PAUSE_CHUNKS)%nat).
  exists pend, (firstn n goings), (skipn n goings), last.
  assert (Lpause : length (skipn n goings) = PAUSE_CHUNKS)
    by (rewrite length_skipn; unfold n; lia).
  rewrite firstn_skipn.
  split.
  { rewrite O, <- app_assoc. f_equal.
    now rewrite app_assoc, (firstn_skipn n goings). }
  split; [exact Gp|]. split; [exact Gg'|]. split; [exact Lpause|].
  (* the invariant of the loop *)
  destruct (main_run_inv np_log10 q s) as (E & Hle & Hfull).
  fold r in E, Hle, Hfull.
  assert (A : appended (observed r) = concat (map fst goings)).
  { rewrite O, !appended_app, (appended_pending pend Gp),
      (appended_going goings Gg').
    cbn. now rewrite app_nil_r. }
  rewrite A in E.
  rewrite <- (firstn_skipn n goings), map_app, concat_app in E.
  assert (Hin : forall p, In p goings -> len (fst p) = CHUNK_BYTES).
  { intros p Hp. apply Hlen. rewrite O. apply in_or_app. left.
    apply in_or_app. right. exact Hp. }
  assert (Lc : len (concat (map fst (skipn n goings))) = buffer_size).
  { rewrite (len_concat_chunks _ CHUNK_BYTES).
    - rewrite Lpause. reflexivity.
    - intros p Hp. apply Hin.
      rewrite <- (firstn_skipn n goings). apply in_or_app. now right. }
  assert (Lb : len (buffer (final r)) = buffer_size).
  { destruct Hfull as [Hf|Hf]; [|exact Hf]. exfalso.
    rewrite Hf in E. cbn [app] in E.
    apply (f_equal len) in E. rewrite len_app, Lc in E.
    assert (1 <= length (firstn n goings))%nat
      by (rewrite length_firstn; unfold n; lia).
    destruct (firstn n goings) as [|p l] eqn:Ef; [cbn in H; lia|].
    assert (Hp : len (fst p) = CHUNK_BYTES).
    { apply Hin. rewrite <- (firstn_skipn n goings), Ef. left. reflexivity. }
    cbn [map concat] in E. rewrite len_app, Hp in E.
    pose proof (len_nonneg (concat (map fst l))).
    change CHUNK_BYTES with 640 in E. lia. }
  destruct (app_inv_len _ _ _ _ E) as [E1 E2].
  { unfold len in Lb, Lc. lia. }
  split; [exact E1|]. split; [exact E2|].
  exists pre. split; [exact F|].
  rewrite length_app, length_firstn. unfold n. lia.
Qed.

Section QueuedFacts.

Variable np_log10 : F64.float -> F64.float.

Lemma get_queued e q : get (e :: q) [] = inr (e, q).
Proof. unfold get. now rewrite app_nil_r. Qed.

(** With every chunk queued beforehand and readable, the loop stops as
    soon as the state machine does on the classifier's decisions. *)
Lemma main_loop_queued q : forall st obs (n : nat),
  (length q <= n)%nat ->
  Forall (fun e => frombuffer_int16 (fst e) <> None) q ->
  stops (observed_statuses (rec_status st)
           (snd (classify_chunks np_log10 (classify_sample st)
                   (map (fun e => chunk_samples (fst e)) q)))) = true ->
  outcome (main_loop np_log10 st q (repeat [] n) obs) = Stopped.
Proof.
  induction q as [|[data k] q IH]; intros st obs n Hn Hq Hs.
  - discriminate.
  - destruct n as [|n]; [cbn in Hn; lia|].
    cbn [repeat main_loop]. rewrite get_queued.
    inversion Hq as [|? ? Hd Hq']; subst. cbn [fst] in Hd.
    unfold classify_chunks in Hs. cbn [map fst classify_all] in Hs.
    unfold chunk_samples in Hs at 1.
    destruct (frombuffer_int16 data) as [arr|]; [|congruence].
    unfold classify_frame.
    destruct (classify_energy (classify_sample st) _) as [cls is_speech].
    destruct (classify_all cls _) as [cls' ds] eqn:C. cbn [snd] in Hs.
    cbn [observed_statuses] in Hs.
    destruct (recording_status (rec_status st) is_speech) as [rs status].
    destruct status; [| |reflexivity].
    + apply IH; [cbn in Hn; lia|exact Hq'|].
      cbn [classify_sample rec_status]. unfold classify_chunks.
      rewrite C. exact Hs.
    + destruct (going (buffer st) data) as [b' w].
      apply IH; [cbn in Hn; lia|exact Hq'|].
      cbn [classify_sample rec_status]. unfold classify_chunks.
      rewrite C. exact Hs.
Qed.

Lemma concat_nils {A} (k n : nat) :
  concat (firstn k (repeat (@nil A) n)) = [].
Proof.
  revert k. induction n as [|n IH]; intros [|k]; try reflexivity.
  cbn [repeat]. rewrite firstn_cons. cbn [concat app]. apply IH.
Qed.

(** Without a producer, the chunks the loop saw were queued. *)
Lemma main_run_queued q n p :
  In p (observed (main_run np_log10 q (repeat [] n))) ->
  exists e, In e q /\ fst e = fst p.
Proof.
  intros Hp. unfold main_run in Hp.
  destruct (main_loop_fifo np_log10 (repeat [] n) initial_loop q [])
    as (k & taken & bad & _ & E & O & _).
  rewrite concat_nils, app_nil_r in E. cbn [map app] in O.
  apply (in_map fst) in Hp. rewrite O in Hp.
  apply in_map_iff in Hp. destruct Hp as (e & He & Hin).
  exists e. split; [|exact He]. rewrite E. apply in_or_app. now left.
Qed.

End QueuedFacts.

Section FullSession.

Lemma quiet_frames_samples :
  frombuffer_int16 (fst quiet_frames) = Some (repeat 1 320).
Proof. vm_compute. reflexivity. Qed.

Lemma loud_frames_samples :
  frombuffer_int16 (fst loud_frames) = Some (repeat 32767 320).
Proof. vm_compute. reflexivity. Qed.

Lemma quiet_frames_energy :
  sample_decibel_energy coarse_log10 (repeat 1 320)
  = sample_decibel_energy coarse_log10 [1].
Proof. vm_compute. reflexivity. Qed.

Lemma loud_frames_energy :
  sample_decibel_energy coarse_log10 (repeat 32767 320)
  = sample_decibel_energy coarse_log10 [32767].
Proof. vm_compute. reflexivity. Qed.

Lemma frames_len : len (fst quiet_frames) = CHUNK_BYTES
                   /\ len (fst loud_frames) = CHUNK_BYTES.
Proof. split; vm_compute; reflexivity. Qed.

Lemma full_channel_entries e :
  In e full_channel -> e = quiet_frames \/ e = loud_frames.
Proof.
  unfold full_channel. intros H.
  apply in_app_or in H. destruct H as [H|H];
    [apply repeat_spec in H; now left|].
  apply in_app_or in H. destruct H as [H|H];
    apply repeat_spec in H; auto.
Qed.

Lemma full_run_stops :
  outcome (main_run coarse_log10 full_channel (repeat [] 120)) = Stopped.
Proof.
  unfold main_run. apply main_loop_queued.
  - unfold full_channel. rewrite !length_app, !repeat_length. lia.
  - apply Forall_forall. intros e He.
    destruct (full_channel_entries e He) as [E|E]; clear He; subst e.
    + rewrite quiet_frames_samples. discriminate.
    + rewrite loud_frames_samples. discriminate.
  - unfold full_channel, classify_chunks.
    rewrite !map_app, !map_repeat. unfold chunk_samples.
    rewrite quiet_frames_samples, loud_frames_samples.
    rewrite quiet_frames_energy, loud_frames_energy.
    vm_compute. reflexivity.
Qed.

Lemma full_run_chunks p :
  In p (observed (main_run coarse_log10 full_channel (repeat [] 120))) ->
  len (fst p) = CHUNK_BYTES.
Proof.
  intros Hp. apply main_run_queued in Hp. destruct Hp as (e & He & E).
  rewrite <- E. clear E p.
  destruct frames_len as [Lq Ll].
  destruct (full_channel_entries e He) as [E|E]; clear He; subst e;
    [exact Lq|exact Ll].
Qed.

End FullSession.

Lemma X8_sink_ends_with_last_speech_witness :
  let r := main_run coarse_log10 full_channel (repeat [] 120) in
  exists pend rec pause last,
    observed r = pend ++ rec ++ pause ++ [(last, STOPPING)]
    /\ map snd pend = repeat PENDING (length pend)
    /\ map snd (rec ++ pause) = repeat GOING (length (rec ++ pause))
    /\ length pause = PAUSE_CHUNKS
    /\ out_file (final r) = concat (map fst rec)
    /\ buffer (final r) = concat (map fst pause)
    /\ exists before,
         run_decisions coarse_log10 (observed r)
         = before ++ true :: repeat false (S PAUSE_CHUNKS)
         /\ length (pend ++ rec) = S (length before).
Proof.
  exact (X8_sink_ends_with_last_speech coarse_log10 full_channel (repeat [] 120)
           full_run_stops full_run_chunks).
Defined.

(** ** The estimates stay finite *)

Section Estimates.

Lemma within_weaken (a b : Q) x : (a <= b)%Q -> within a x -> within b x.
Proof. intros H [G B]. split; [exact G|]. lra. Qed.

Lemma smooth_within c l :
  within 4097 l -> within 4096 c -> within 4097 (smooth l c).
Proof.
  intros [Gl Hl] [Gc Hc]. unfold smooth.
  destruct good_constants as (GF & GD & _).
  destruct (mul_scaled l FORGET_FACTOR Gl GF) as [G1 E1];
    [rewrite B2Q_FORGET_FACTOR; lra|].
  rewrite B2Q_FORGET_FACTOR in E1.
  destruct (add_scaled (l * FORGET_FACTOR)%f64 c G1 Gc) as [G2 E2]; [lra|].
  destruct (div_scaled (l * FORGET_FACTOR + c)%f64 (FORGET_FACTOR + ONE)%f64 G2 GD)
    as [G3 E3].
  - rewrite B2Q_DIVISOR. discriminate.
  - rewrite div_by_DIVISOR. lra.
  - rewrite div_by_DIVISOR in E3. split; [exact G3|]. lra.
Qed.

(** Moving an estimate by the weak or the strong fraction of the change:
    the value, up to three roundings. *)
Lemma toward_weak o u :
  within 4098 o -> within 4098 u ->
  good (WEAK_ADJUSTMENT * (u - o) + o)%f64
  /\ (B2Q o + (7205759403792794 # 144115188075855872) * (B2Q u - B2Q o)
      - (3 # 549755813888)
      <= B2Q (WEAK_ADJUSTMENT * (u - o) + o)%f64
      <= B2Q o + (7205759403792794 # 144115188075855872) * (B2Q u - B2Q o)
         + (3 # 549755813888))%Q.
Proof.
  intros [Go Ho] [Gu Hu].
  destruct good_constants as (_ & _ & GW & _ & _).
  destruct (sub_scaled u o Gu Go) as [Gd Ed]; [lra|].
  destruct (mul_scaled WEAK_ADJUSTMENT (u - o)%f64 GW Gd) as [Gp Ep];
    [rewrite B2Q_WEAK; lra|].
  rewrite B2Q_WEAK in Ep.
  destruct (add_scaled (WEAK_ADJUSTMENT * (u - o))%f64 o Gp Go) as [Gr Er];
    [lra|].
  split; [exact Gr|]. lra.
Qed.

Lemma toward_strong o u :
  within 4098 o -> within 4098 u ->
  good (STRONG_ADJUSTMENT * (u - o) + o)%f64
  /\ (B2Q o + (7205759403792794 # 9007199254740992) * (B2Q u - B2Q o)
      - (3 # 549755813888)
      <= B2Q (STRONG_ADJUSTMENT * (u - o) + o)%f64
      <= B2Q o + (7205759403792794 # 9007199254740992) * (B2Q u - B2Q o)
         + (3 # 549755813888))%Q.
Proof.
  intros [Go Ho] [Gu Hu].
  destruct good_constants as (_ & _ & _ & GS & _).
  destruct (sub_scaled u o Gu Go) as [Gd Ed]; [lra|].
  destruct (mul_scaled STRONG_ADJUSTMENT (u - o)%f64 GS Gd) as [Gp Ep];
    [rewrite B2Q_STRONG; lra|].
  rewrite B2Q_STRONG in Ep.
  destruct (add_scaled (STRONG_ADJUSTMENT * (u - o))%f64 o Gp Go) as [Gr Er];
    [lra|].
  split; [exact Gr|]. lra.
Qed.

(** Either way round, an estimate adjusted towards a level stays in
    range. *)
Lemma adjust_within o u a b :
  (a = WEAK_ADJUSTMENT /\ b = STRONG_ADJUSTMENT)
  \/ (a = STRONG_ADJUSTMENT /\ b = WEAK_ADJUSTMENT) ->
  within 4098 o -> within 4097 u ->
  within 4098 (adjust_conditionally_on_change o u a b).
Proof.
  intros Hab Ho Hu.
  assert (Hu' : within 4098 u) by (apply (within_weaken 4097); [lra|exact Hu]).
  destruct (toward_weak o u Ho Hu') as [Gw Ew].
  destruct (toward_strong o u Ho Hu') as [Gs Es].
  destruct Ho as [_ Ho], Hu as [_ Hu].
  unfold adjust_conditionally_on_change.
  destruct Hab as [[-> ->]|[-> ->]]; destruct (u - o >? ZERO)%f64;
    (split; [assumption|lra]).
Qed.

(** One chunk of finite energy keeps the estimates in range, and sets
    level and background. *)
Lemma calm_step st c :
  calm st -> within 4096 c -> steady (fst (classify_energy st c)).
Proof.
  intros (Hl & Hb & Hf) Hc. destruct st as [lv bg fg sp].
  cbn [level background foreground] in Hl, Hb, Hf.
  assert (Hl0 : within 4097 (match lv with None => c | Some l => l end)).
  { destruct lv; [exact Hl|]. apply (within_weaken 4096); [lra|exact Hc]. }
  assert (Hb0 : within 4098 (match bg with None => c | Some b => b end)).
  { destruct bg; [exact Hb|]. apply (within_weaken 4096); [lra|exact Hc]. }
  pose proof (smooth_within c _ Hl0 Hc) as H1. unfold smooth in H1.
  assert (H1' : within 4098
                  (((match lv with None => c | Some l => l end) * FORGET_FACTOR + c)
                   / (FORGET_FACTOR + ONE))%f64)
    by (apply (within_weaken 4097); [lra|exact H1]).
  unfold classify_energy, steady.
  cbn [level background foreground speaking].
  set (l0 := match lv with None => c | Some l => l end) in *.
  set (b0 := match bg with None => c | Some b => b end) in *.
  set (l1 := ((l0 * FORGET_FACTOR + c) / (FORGET_FACTOR + ONE))%f64) in *.
  destruct sp.
  - destruct ((l1 - b0 <? CONTINUING_THRESHOLD_DB)
              || (l1 - fg <? STOPPING_THRESHOLD_DB))%f64%bool; cbn [negb].
    + set (b1 := if (b0 <? l1)%f64 then b0 else l1).
      assert (Hb1 : within 4098 b1) by (unfold b1; destruct (b0 <? l1)%f64; assumption).
      destruct (l1 - b1 >=? STARTING_THRESHOLD_DB)%f64; cbn [fst level background foreground].
      * exists l1, b1. auto.
      * exists l1, (adjust_conditionally_on_change
                      b1 l1 WEAK_ADJUSTMENT STRONG_ADJUSTMENT).
        repeat split; try reflexivity; try tauto; try apply H1; try apply Hf;
          apply adjust_within; auto.
    + cbn [fst level background foreground].
      exists l1, b0. repeat split; try reflexivity; try apply H1; try apply Hb0;
        apply adjust_within; auto.
  - cbn [negb].
    destruct (l1 - b0 >=? STARTING_THRESHOLD_DB)%f64; cbn [fst level background foreground].
    + exists l1, b0. auto.
    + exists l1, (adjust_conditionally_on_change
                    b0 l1 WEAK_ADJUSTMENT STRONG_ADJUSTMENT).
      repeat split; try reflexivity; try apply H1; try apply Hf;
        apply adjust_within; auto.
Qed.

Lemma steady_calm st : steady st -> calm st.
Proof.
  intros (l & b & El & Eb & Hl & Hb & Hf). unfold calm.
  rewrite El, Eb. cbn. auto.
Qed.

Lemma fresh_calm : calm get_classify_sample.
Proof.
  unfold calm. cbn. split; [exact I|]. split; [exact I|].
  split; [apply good_zero|]. cbn. lra.
Qed.

Lemma calm_all es : forall st,
  calm st -> Forall (within 4096) es -> es <> [] ->
  steady (fst (classify_all st es)).
Proof.
  induction es as [|c es IH]; intros st Hst Hes Hne; [congruence|].
  inversion Hes as [|? ? Hc Hes']; subst.
  pose proof (calm_step st c Hst Hc) as S1.
  cbn [classify_all]. destruct (classify_energy st c) as [st1 d].
  cbn [fst] in S1.
  destruct es as [|c' es].
  - cbn [classify_all fst]. exact S1.
  - specialize (IH st1 (steady_calm _ S1) Hes' ltac:(discriminate)).
    destruct (classify_all st1 (c' :: es)) as [st2 ds]. exact IH.
Qed.

(** A finite energy of the meter is in the range of the invariant. *)
Lemma finite_energy_within np_log10 a :
  log10_like np_log10 ->
  finite (sample_decibel_energy np_log10 a) = true ->
  within 4096 (sample_decibel_energy np_log10 a).
Proof.
  intros H F. destruct (energy_in_range np_log10 a H) as [N|[G B]].
  - rewrite F in N. discriminate.
  - split; assumption.
Qed.

End Estimates.

(** X9: as long as the chunks have finite energies (no empty and no
    all-zero chunk), the classifier's estimates stay finite: after any
    such chunks, at least one, level, background and foreground are
    finite doubles, the level of magnitude at most 4097 and the other
    two at most 4098; none is a NaN or an infinity, and no operation of
    the update overflows.  [np.log10] is assumed to return, on a double,
    a non-finite double or one of magnitude at most 324. *)
Theorem X9_estimates_stay_finite
  (np_log10 : F64.float -> F64.float) (chunks : list (list Z)) :
  log10_like np_log10 ->
  (forall a, In a chunks -> finite (sample_decibel_energy np_log10 a) = true) ->
  chunks <> [] ->
  steady (fst (classify_chunks np_log10 get_classify_sample chunks)).
Proof.
  intros H Hf Hne. unfold classify_chunks. apply calm_all.
  - exact fresh_calm.
  - apply Forall_forall. intros c Hc. apply in_map_iff in Hc.
    destruct Hc as (a & <- & Ha). apply finite_energy_within; auto.
  - destruct chunks; [congruence|discriminate].
Qed.

Lemma X9_estimates_stay_finite_witness :
  steady (fst (classify_chunks coarse_log10 get_classify_sample
                 [[3; -4]; [32767; 12]])).
Proof.
  apply (X9_estimates_stay_finite coarse_log10 [[3; -4]; [32767; 12]]).
  - exact coarse_log10_like.
  - intros a [<-|[<-|[]]]; reflexivity.
  - discriminate.
Defined.



(** ** The classifier over a sequence in two parts *)

Section Sequences.

Lemma classify_all_app es es' : forall st,
  classify_all st (es ++ es')
  = (fst (classify_all (fst (classify_all st es)) es'),
     snd (classify_all st es)
     ++ snd (classify_all (fst (classify_all st es)) es')).
Proof.
  induction es as [|c es IH]; intros st; cbn [app classify_all fst snd].
  - now destruct (classify_all st es').
  - destruct (classify_energy st c) as [st1 d]. rewrite IH.
    destruct (classify_all st1 es) as [st2 ds]. reflexivity.
Qed.

Lemma classify_chunks_app np_log10 st before after :
  snd (classify_chunks np_log10 st (before ++ after))
  = snd (classify_chunks np_log10 st before)
    ++ snd (classify_chunks np_log10
              (fst (classify_chunks np_log10 st before)) after).
Proof. unfold classify_chunks. now rewrite map_app, classify_all_app. Qed.

(** A property of the state that every chunk keeps and that fixes the
    decision fixes all decisions. *)
Lemma decisions_all (P : ClassifierState -> Prop) (d : bool) :
  (forall st c, P st ->
     P (fst (classify_energy st c)) /\ snd (classify_energy st c) = d) ->
  forall es st, P st -> snd (classify_all st es) = repeat d (length es).
Proof.
  intros Step. induction es as [|c es IH]; intros st H; [reflexivity|].
  cbn [classify_all length repeat].
  destruct (Step st c H) as [H' E].
  destruct (classify_energy st c) as [st1 d1]. cbn [fst snd] in H', E. subst d1.
  specialize (IH st1 H').
  destruct (classify_all st1 es) as [st2 ds]. cbn [snd] in *. now rewrite IH.
Qed.

(** Speech at every chunk: [GOING] at every chunk, whatever the state of
    the recorder. *)
Lemma observed_all_speech n : forall st,
  observed_statuses st (repeat true n) = repeat GOING n.
Proof.
  induction n as [|n IH]; intros st; [reflexivity|].
  cbn [repeat]. destruct st as [t [|]].
  - rewrite observed_speech_1, IH. reflexivity.
  - cbn [observed_statuses]. rewrite recording_status_start by reflexivity.
    rewrite IH. reflexivity.
Qed.

Lemma observed_then_speech n ds : forall st,
  ~ In STOPPING (observed_statuses st ds) ->
  observed_statuses st (ds ++ repeat true n)
  = observed_statuses st ds ++ repeat GOING n.
Proof.
  induction ds as [|d ds IH]; intros st H.
  - apply observed_all_speech.
  - cbn [app observed_statuses] in *.
    destruct (recording_status st d) as [st' status].
    destruct status.
    + cbn [app]. f_equal. apply IH. intros N. apply H. now right.
    + cbn [app]. f_equal. apply IH. intros N. apply H. now right.
    + exfalso. apply H. now left.
Qed.

End Sequences.

(** ** Minus infinity and NaN in the update *)

Section NonFinite.

Lemma add_ninf x : finite x = true -> (x + F64.ninf)%f64 = F64.ninf.
Proof. destruct x; try discriminate; reflexivity. Qed.

Lemma ninf_add x : finite x = true -> (F64.ninf + x)%f64 = F64.ninf.
Proof. destruct x; try discriminate; reflexivity. Qed.

Lemma ninf_sub x : finite x = true -> (F64.ninf - x)%f64 = F64.ninf.
Proof. destruct x as [s|s| |s m e]; try discriminate; destruct s; reflexivity. Qed.

Lemma ltb_ninf x : finite x = true -> (x <? F64.ninf)%f64 = false.
Proof. destruct x as [s|s| |s m e]; try discriminate; destruct s; reflexivity. Qed.

Lemma add_nan x : (x + S754_nan)%f64 = S754_nan.
Proof. destruct x; reflexivity. Qed.

Lemma nan_sub x : (S754_nan - x)%f64 = S754_nan.
Proof. destruct x; reflexivity. Qed.

(** The level after a chunk of energy minus infinity. *)
Lemma smooth_ninf l :
  within 4097 l -> smooth l F64.ninf = F64.ninf.
Proof.
  intros [Gl Hl]. unfold smooth.
  destruct good_constants as (GF & _).
  destruct (mul_scaled l FORGET_FACTOR Gl GF) as [[F _] _];
    [rewrite B2Q_FORGET_FACTOR; lra|].
  rewrite (add_ninf _ F). reflexivity.
Qed.

(** The background adjusted towards minus infinity. *)
Lemma adjust_ninf b :
  finite b = true ->
  adjust_conditionally_on_change b F64.ninf WEAK_ADJUSTMENT STRONG_ADJUSTMENT
  = F64.ninf.
Proof.
  intros F. unfold adjust_conditionally_on_change.
  rewrite (ninf_sub b F).
  change (F64.ninf >? ZERO)%f64 with false.
  change (STRONG_ADJUSTMENT * F64.ninf)%f64 with F64.ninf.
  apply ninf_add, F.
Qed.

(** One chunk of energy minus infinity mutes a classifier whose
    estimates are finite. *)
Lemma silence_mutes st :
  calm st ->
  muted (fst (classify_energy st F64.ninf))
  /\ snd (classify_energy st F64.ninf) = false.
Proof.
  intros (Hl & Hb & Hf). destruct st as [lv bg fg sp].
  cbn [level background foreground] in Hl, Hb, Hf.
  assert (L1 : ((match lv with None => F64.ninf | Some l => l end * FORGET_FACTOR
                 + F64.ninf) / (FORGET_FACTOR + ONE))%f64 = F64.ninf).
  { destruct lv as [l|]; [exact (smooth_ninf l Hl)|reflexivity]. }
  destruct Hf as [[Ff _] _].
  unfold classify_energy. cbn [level background foreground speaking].
  rewrite L1. rewrite (ninf_sub fg Ff).
  change (F64.ninf <? STOPPING_THRESHOLD_DB)%f64 with true.
  rewrite orb_true_r.
  assert (B1 : (if (match bg with None => F64.ninf | Some b => b end <? F64.ninf)%f64
                then match bg with None => F64.ninf | Some b => b end
                else F64.ninf) = F64.ninf).
  { destruct bg as [b|]; [|reflexivity].
    destruct Hb as [[Fb _] _]. now rewrite (ltb_ninf b Fb). }
  destruct sp.
  - rewrite B1. cbn. split; [|reflexivity]. split; [reflexivity|]. now left.
  - cbn [negb]. destruct bg as [b|].
    + destruct Hb as [[Fb _] _]. rewrite (ninf_sub b Fb).
      change (F64.ninf >=? STARTING_THRESHOLD_DB)%f64 with false.
      rewrite (adjust_ninf b Fb). cbn [fst snd level background speaking].
      split; [|reflexivity]. split; [reflexivity|]. right. split; reflexivity.
    + cbn. split; [|reflexivity]. split; [reflexivity|]. now left.
Qed.

(** A muted classifier stays muted, whatever the energy. *)
Lemma muted_step st c :
  muted st ->
  muted (fst (classify_energy st c)) /\ snd (classify_energy st c) = false.
Proof.
  intros [Hs [Hb|[Hb Hl]]].
  - destruct (numb_step st c (conj Hs Hb)) as [[S' B'] E].
    split; [|exact E]. split; [exact S'|]. now left.
  - destruct st as [lv bg fg sp]. cbn [speaking background level] in Hs, Hb, Hl.
    subst.
    destruct c as [s|[|]| |s m e];
      (split; [split; [reflexivity|left; reflexivity]|reflexivity]).
Qed.

(** A NaN for energy while speaking: the level is a NaN from then on,
    no test of the speaking branch holds, and the classifier keeps
    speaking. *)
Lemma latched_step st c :
  latched st ->
  latched (fst (classify_energy st c)) /\ snd (classify_energy st c) = true.
Proof.
  intros [Hs Hl]. destruct st as [lv bg fg sp].
  cbn [speaking level] in Hs, Hl. subst.
  unfold classify_energy. cbn [level background foreground speaking].
  change (S754_nan * FORGET_FACTOR)%f64 with S754_nan.
  change (S754_nan + c)%f64 with S754_nan.
  change (S754_nan / (FORGET_FACTOR + ONE))%f64 with S754_nan.
  rewrite !nan_sub.
  change (S754_nan <? CONTINUING_THRESHOLD_DB)%f64 with false.
  change (S754_nan <? STOPPING_THRESHOLD_DB)%f64 with false.
  cbn. split; [split|]; reflexivity.
Qed.

Lemma nan_latches st :
  speaking st = true ->
  latched (fst (classify_energy st S754_nan))
  /\ snd (classify_energy st S754_nan) = true.
Proof.
  intros Hs. destruct st as [lv bg fg sp]. cbn [speaking] in Hs. subst.
  unfold classify_energy. cbn [level background foreground speaking].
  rewrite add_nan.
  change (S754_nan / (FORGET_FACTOR + ONE))%f64 with S754_nan.
  rewrite !nan_sub.
  change (S754_nan <? CONTINUING_THRESHOLD_DB)%f64 with false.
  change (S754_nan <? STOPPING_THRESHOLD_DB)%f64 with false.
  cbn. split; [split|]; reflexivity.
Qed.

(** The estimates after chunks of finite energy. *)
Lemma calm_after es : forall st,
  calm st -> Forall (within 4096) es -> calm (fst (classify_all st es)).
Proof.
  intros st Hst Hes. destruct es as [|c es]; [exact Hst|].
  apply steady_calm, calm_all; [exact Hst|exact Hes|discriminate].
Qed.

End NonFinite.

(** X10: a chunk of energy minus infinity (with NumPy's [log10], a
    chunk of zeros) mutes the classifier for good: after chunks of
    finite energy, the chunk itself and every later chunk, whatever its
    content, is classified as non-speech.  [np.log10] is assumed to
    return, on a double, a non-finite double or one of magnitude at
    most 324. *)
Theorem X10_silence_mutes_classifier
  (np_log10 : F64.float -> F64.float) (before : list (list Z)) (z : list Z)
  (after : list (list Z)) :
  log10_like np_log10 ->
  (forall a, In a before -> finite (sample_decibel_energy np_log10 a) = true) ->
  sample_decibel_energy np_log10 z = F64.ninf ->
  snd (classify_chunks np_log10 get_classify_sample (before ++ z :: after))
  = snd (classify_chunks np_log10 get_classify_sample before)
    ++ repeat false (S (length after)).
Proof.
  intros H Hf Hz. rewrite classify_chunks_app. f_equal.
  assert (C : calm (fst (classify_chunks np_log10 get_classify_sample before))).
  { unfold classify_chunks. apply calm_after; [exact fresh_calm|].
    apply Forall_forall. intros c Hc. apply in_map_iff in Hc.
    destruct Hc as (a & <- & Ha). apply finite_energy_within; auto. }
  set (st := fst (classify_chunks np_log10 get_classify_sample before)) in *.
  unfold classify_chunks. cbn [map classify_all]. rewrite Hz.
  destruct (silence_mutes st C) as [M E].
  destruct (classify_energy st F64.ninf) as [st1 d]. cbn [fst snd] in M, E.
  subst d.
  pose proof (decisions_all muted false muted_step
                (map (sample_decibel_energy np_log10) after) st1 M) as A.
  destruct (classify_all st1 _) as [st2 ds]. cbn [snd] in *.
  rewrite A, length_map. reflexivity.
Qed.

Lemma X10_silence_mutes_classifier_witness :
  snd (classify_chunks coarse_log10 get_classify_sample
         ([[1]; [32767]] ++ [0; 0] :: [[32767]; [32767; 12]]))
  = snd (classify_chunks coarse_log10 get_classify_sample [[1]; [32767]])
    ++ repeat false 3.
Proof.
  apply (X10_silence_mutes_classifier coarse_log10
           [[1]; [32767]] [0; 0] [[32767]; [32767; 12]]).
  - exact coarse_log10_like.
  - intros a [<-|[<-|[]]]; reflexivity.
  - reflexivity.
Defined.

(** X11: when the energy of the first chunk is not finite (a NaN or an
    infinity: an empty chunk or a chunk of zeros), no chunk is ever
    classified as speech, whatever follows, and the recorder stays
    [PENDING]: nothing is recorded. *)
Theorem X11_nonfinite_first_chunk
  (np_log10 : F64.float -> F64.float) (first : list Z) (rest : list (list Z)) :
  finite (sample_decibel_energy np_log10 first) = false ->
  snd (classify_chunks np_log10 get_classify_sample (first :: rest))
  = repeat false (S (length rest))
  /\ observed_statuses get_recording_status
       (snd (classify_chunks np_log10 get_classify_sample (first :: rest)))
     = repeat PENDING (S (length rest)).
Proof.
  intros F.
  assert (D : snd (classify_chunks np_log10 get_classify_sample (first :: rest))
              = repeat false (S (length rest))).
  { unfold classify_chunks. cbn [map classify_all].
    destruct (numb_first _ F) as [N E].
    destruct (classify_energy get_classify_sample _) as [st1 d].
    cbn [fst snd] in N, E. subst d.
    pose proof (decisions_all numb false numb_step
                  (map (sample_decibel_energy np_log10) rest) st1 N) as A.
    destruct (classify_all st1 _) as [st2 ds]. cbn [snd] in *.
    rewrite A, length_map. reflexivity. }
  split; [exact D|]. rewrite D.
  rewrite <- (app_nil_r (repeat false (S (length rest)))).
  rewrite observed_pending by reflexivity. cbn [observed_statuses].
  apply app_nil_r.
Qed.

Lemma X11_nonfinite_first_chunk_witness :
  snd (classify_chunks coarse_log10 get_classify_sample
         ([0; 0; 0] :: [[32767]; [1]; [32767]]))
  = repeat false 4.
Proof.
  exact (proj1 (X11_nonfinite_first_chunk coarse_log10
                  [0; 0; 0] [[32767]; [1]; [32767]] eq_refl)).
Defined.

(** X12: a NaN for energy (an empty chunk) while the classifier is
    speaking makes it report speech for ever: that chunk and every later
    one, whatever its content, is classified as speech, and the
    recorder, unless it had stopped before, returns [GOING] from then
    on and never [STOPPING]. *)
Theorem X12_nan_while_speaking
  (np_log10 : F64.float -> F64.float) (before : list (list Z)) (z : list Z)
  (after : list (list Z)) :
  speaking (fst (classify_chunks np_log10 get_classify_sample before)) = true ->
  sample_decibel_energy np_log10 z = S754_nan ->
  let ds := snd (classify_chunks np_log10 get_classify_sample before) in
  let ds' := snd (classify_chunks np_log10 get_classify_sample
                    (before ++ z :: after)) in
  ds' = ds ++ repeat true (S (length after))
  /\ (~ In STOPPING (observed_statuses get_recording_status ds) ->
      observed_statuses get_recording_status ds'
      = observed_statuses get_recording_status ds
        ++ repeat GOING (S (length after))).
Proof.
  intros Hs Hz. cbv zeta.
  assert (D : snd (classify_chunks np_log10 get_classify_sample
                     (before ++ z :: after))
              = snd (classify_chunks np_log10 get_classify_sample before)
                ++ repeat true (S (length after))).
  { rewrite classify_chunks_app. f_equal.
    set (st := fst (classify_chunks np_log10 get_classify_sample before)) in *.
    unfold classify_chunks. cbn [map classify_all]. rewrite Hz.
    destruct (nan_latches st Hs) as [L E].
    destruct (classify_energy st S754_nan) as [st1 d]. cbn [fst snd] in L, E.
    subst d.
    pose proof (decisions_all latched true latched_step
                  (map (sample_decibel_energy np_log10) after) st1 L) as A.
    destruct (classify_all st1 _) as [st2 ds]. cbn [snd] in *.
    rewrite A, length_map. reflexivity. }
  split; [exact D|]. intros N. rewrite D. now apply observed_then_speech.
Qed.

Lemma X12_nan_while_speaking_witness :
  snd (classify_chunks coarse_log10 get_classify_sample
         ([[1]; [32767]] ++ [] :: [[1]; [1]]))
  = snd (classify_chunks coarse_log10 get_classify_sample [[1]; [32767]])
    ++ repeat true 3.
Proof.
  exact (proj1 (X12_nan_while_speaking coarse_log10
                  [[1]; [32767]] [] [[1]; [1]] eq_refl eq_refl)).
Defined.

(** ** Starting again in the call that stopped *)

Section Restart.

Lemma geb_true x y :
  good x -> good y -> (B2Q y <= B2Q x)%Q -> (x >=? y)%f64 = true.
Proof.
  intros Gx Gy H. pose proof (compare_spec y x Gy Gx) as C.
  unfold F64.geb, SFleb. destruct (SFcompare y x) as [[ | | ]|]; try reflexivity;
    try lra; contradiction.
Qed.

Lemma B2Q_STOPPING : (B2Q STOPPING_THRESHOLD_DB == - (20))%Q.
Proof. reflexivity. Qed.

Lemma good_STOPPING : good STOPPING_THRESHOLD_DB.
Proof. split; reflexivity. Qed.

End Restart.

(** X13: a level at least 15 dB above the background is speech, whatever
    else holds: the chunk is classified as speech and the background
    is left as it is.  This is so even while speaking with the level
    more than 20 dB below the foreground, where the speaking branch
    stops the speech: the branch for not speaking of the same call
    starts it again, and the foreground becomes the level.  Level and
    energy are finite, within 4097 and 4096 of 0, background and
    foreground within 4098; 2^-39 covers the rounding of the
    differences. *)
Theorem X13_restart_in_same_call (l b f c : F64.float) (sp : bool) :
  within 4097 l -> within 4098 b -> within 4098 f -> within 4096 c ->
  let l1 := smooth l c in
  let r := classify_energy (mkCls (Some l) (Some b) f sp) c in
  (15 + (1 # 549755813888) <= B2Q l1 - B2Q b)%Q ->
  snd r = true
  /\ level (fst r) = Some l1
  /\ background (fst r) = Some b
  /\ ((B2Q l1 - B2Q f < - (20) - (1 # 549755813888))%Q ->
      foreground (fst r) = l1).
Proof.
  intros Hl Hb Hf Hc. cbv zeta. intros H15.
  destruct (smooth_within c l Hl Hc) as [G1 B1].
  destruct Hb as [Gb Bb], Hf as [Gf Bf].
  destruct good_constants as (_ & _ & _ & _ & GT).
  destruct (sub_scaled (smooth l c) b G1 Gb) as [Gd Ed]; [lra|].
  assert (T : (smooth l c - b >=? STARTING_THRESHOLD_DB)%f64 = true)
    by (apply geb_true; [exact Gd|exact GT|rewrite B2Q_STARTING; lra]).
  assert (L : (b <? smooth l c)%f64 = true)
    by (apply ltb_true; [exact Gb|exact G1|lra]).
  unfold classify_energy. cbn [level background foreground speaking].
  change ((l * FORGET_FACTOR + c) / (FORGET_FACTOR + ONE))%f64
    with (smooth l c).
  destruct sp.
  - destruct ((smooth l c - b <? CONTINUING_THRESHOLD_DB)
              || (smooth l c - f <? STOPPING_THRESHOLD_DB))%f64%bool eqn:M.
    + rewrite L. cbn [negb]. rewrite T.
      cbn [fst snd level background foreground]. auto.
    + cbn [negb fst snd level background foreground].
      repeat split. intros D. exfalso.
      destruct (sub_scaled (smooth l c) f G1 Gf) as [Ge Ee]; [lra|].
      assert (S : (smooth l c - f <? STOPPING_THRESHOLD_DB)%f64 = true)
        by (apply ltb_true; [exact Ge|exact good_STOPPING|
                             rewrite B2Q_STOPPING; lra]).
      rewrite S, orb_true_r in M. discriminate.
  - cbn [negb]. rewrite T. cbn [fst snd level background foreground]. auto.
Qed.

Lemma X13_restart_in_same_call_witness :
  snd (classify_energy
         (mkCls (Some (F64.of_Z 60)) (Some (F64.of_Z 30)) (F64.of_Z 100) true)
         (F64.of_Z 60)) = true.
Proof.
  refine (proj1 (X13_restart_in_same_call
                   (F64.of_Z 60) (F64.of_Z 30) (F64.of_Z 100) (F64.of_Z 60) true
                   _ _ _ _ _));
    try (split; [split; reflexivity|]); vm_compute; try split; discriminate.
Defined.

(** ** Chunks without signal *)

Section Degenerate.

Lemma pow2_52 : (pow2 52 == 4503599627370496)%Q.
Proof. reflexivity. Qed.

Lemma eta_52 : (pow2 (Z.max (52 - 53) (-1074)) == 1 # 2)%Q.
Proof. reflexivity. Qed.

(** The count of the samples as a double: a positive finite number. *)
Lemma of_Z_count (n : Z) :
  0 < n < 2 ^ 52 ->
  exists m e, F64.of_Z n = S754_finite false m e.
Proof.
  intros Hn.
  assert (Q1 : (1 <= inject_Z n)%Q)
    by (change 1%Q with (inject_Z 1); rewrite <- Zle_Qle; lia).
  assert (Q2 : (inject_Z n < 4503599627370496)%Q)
    by (change 4503599627370496%Q with (inject_Z (2 ^ 52));
        rewrite <- Zlt_Qlt; lia).
  destruct (binary_normalize_value n 0 52) as [G E].
  { rewrite pow2_0, pow2_52. lra. }
  { lia. }
  rewrite pow2_0, eta_52 in E. fold (F64.of_Z n) in G, E.
  destruct (F64.of_Z n) as [s|s| |s m e].
  - rewrite B2Q_zero in E. lra.
  - destruct G as [F _]. discriminate.
  - destruct G as [F _]. discriminate.
  - destruct s; [|eauto].
    pose proof (B2Q_finite true m e) as V. pose proof (mantissa_pos m e).
    cbv iota in V. lra.
Qed.

Lemma zeros_int16 n : Forall is_int16 (repeat 0 n).
Proof. apply Forall_forall. intros x Hx. apply repeat_spec in Hx. subst. red. lia. Qed.

End Degenerate.

(** X15: the power of a chunk of zeros is +0, so that its energy is ten
    times [np.log10] of +0 (minus infinity with NumPy's); the power of
    an empty chunk is the NaN of 0/0: the division raises no
    exception.  The chunk of zeros has fewer than 2^52 samples. *)
Theorem X15_chunks_without_signal
  (np_log10 : F64.float -> F64.float) (n : nat) :
  (0 < n)%nat -> Z.of_nat n < 2 ^ 52 ->
  power (repeat 0 n) = S754_zero false
  /\ sample_decibel_energy np_log10 (repeat 0 n)
     = (np_log10 (S754_zero false) * TEN)%f64
  /\ power [] = S754_nan
  /\ sample_decibel_energy np_log10 [] = (np_log10 S754_nan * TEN)%f64.
Proof.
  intros Hn Hb.
  assert (P : power (repeat 0 n) = S754_zero false).
  { unfold power. rewrite (astype_int64_id _ (zeros_int16 n)).
    rewrite dot64_self, sum_sq_repeat, repeat_length.
    replace (Z.of_nat n * (0 * 0)) with 0 by lia.
    destruct (of_Z_count (Z.of_nat n)) as (m & e & ->); [lia|].
    reflexivity. }
  split; [exact P|]. split; [|split; reflexivity].
  unfold sample_decibel_energy. now rewrite P.
Qed.

Lemma X15_chunks_without_signal_witness :
  power (repeat 0 320) = S754_zero false.
Proof.
  refine (proj1 (X15_chunks_without_signal coarse_log10 320 _ _));
    [apply Nat.lt_0_succ|reflexivity].
Defined.

(** ** A producer that keeps up *)

Section KeepsRunning.

Variable np_log10 : F64.float -> F64.float.

Lemma get_arrivals (q : Channel) (arrivals : list ChannelEntry) :
  arrivals <> [] -> exists e q', get q arrivals = inr (e, q').
Proof.
  intros H. unfold get. destruct (q ++ arrivals) as [|e q'] eqn:E; [|eauto].
  apply app_eq_nil in E. destruct E. contradiction.
Qed.

Lemma frombuffer_int16_even data :
  Z.even (len data) = true -> frombuffer_int16 data <> None.
Proof.
  intros E N. pose proof (frombuffer_int16_spec data) as S.
  rewrite N in S. rewrite <- Z.negb_even, E in S. discriminate.
Qed.

Lemma main_loop_keeps_running (s : Schedule) : forall st (q : Channel) obs,
  Forall (fun arrivals : list ChannelEntry => arrivals <> []) s ->
  Forall (fun e : ChannelEntry => Z.even (len (fst e)) = true)
         (q ++ concat s) ->
  (outcome (main_loop np_log10 st q s obs) = Running
   /\ length (observed (main_loop np_log10 st q s obs))
      = (length obs + length s)%nat)
  \/ (outcome (main_loop np_log10 st q s obs) = Stopped
      /\ (length (observed (main_loop np_log10 st q s obs))
          <= length obs + length s)%nat).
Proof.
  induction s as [|arrivals s IH]; intros st q obs Hs Hq; cbn [main_loop].
  - left. cbn. split; [reflexivity|lia].
  - inversion Hs as [|? ? Ha Hs']; subst.
    destruct (get_arrivals q arrivals Ha) as ([data n] & q' & G). rewrite G.
    apply get_some in G. cbn [concat] in Hq.
    apply Forall_app in Hq. destruct Hq as [Hq1 Hq2].
    apply Forall_app in Hq2. destruct Hq2 as [Hq2 Hq3].
    assert (Hq4 : Forall (fun e : ChannelEntry => Z.even (len (fst e)) = true)
                    (q ++ arrivals)) by (apply Forall_app; auto).
    rewrite G in Hq4. inversion Hq4 as [|? ? Hd Hq5]; subst. cbn [fst] in Hd.
    assert (Hq' : Forall (fun e : ChannelEntry => Z.even (len (fst e)) = true)
                    (q' ++ concat s)) by (apply Forall_app; auto).
    destruct (frombuffer_int16 data) as [arr|] eqn:F;
      [|exfalso; exact (frombuffer_int16_even data Hd F)].
    destruct (classify_frame np_log10 (classify_sample st) arr) as [cls is_speech].
    destruct (recording_status (rec_status st) is_speech) as [rs status].
    destruct status.
    + destruct (IH (mkLoop cls rs (buffer st) (out_file st)) q'
                   (obs ++ [(data, PENDING)]) Hs' Hq') as [[O L]|[O L]];
        rewrite length_app in L; cbn [length] in *; [left|right];
        (split; [exact O|lia]).
    + destruct (going (buffer st) data) as [b' w].
      destruct (IH (mkLoop cls rs b' (writeframes (out_file st) w)) q'
                   (obs ++ [(data, GOING)]) Hs' Hq') as [[O L]|[O L]];
        rewrite length_app in L; cbn [length] in *; [left|right];
        (split; [exact O|lia]).
    + right. cbn [outcome observed]. rewrite length_app. cbn [length].
      split; [reflexivity|lia].
Qed.

End KeepsRunning.

(** X16: with a producer that keeps up the loop raises nothing: when
    something arrives during every retrieval and every chunk has an
    even number of bytes, [audio_queue.get] never times out and
    [np.frombuffer] never fails, and each iteration processes one chunk:
    the run is still going after as many chunks as there were
    retrievals, or it has stopped on [STOPPING]. *)
Theorem X16_loop_keeps_running
  (np_log10 : F64.float -> F64.float) (q : Channel) (s : Schedule) :
  Forall (fun arrivals : list ChannelEntry => arrivals <> []) s ->
  Forall (fun e : ChannelEntry => Z.even (len (fst e)) = true)
         (q ++ concat s) ->
  let r := main_run np_log10 q s in
  (outcome r = Running /\ length (observed r) = length s)
  \/ (outcome r = Stopped /\ (length (observed r) <= length s)%nat).
Proof.
  intros Hs Hq. cbv zeta. unfold main_run.
  exact (main_loop_keeps_running np_log10 s initial_loop q [] Hs Hq).
Qed.

Lemma X16_loop_keeps_running_witness :
  let r := main_run coarse_log10 [quiet_chunk]
             [[quiet_chunk]; [loud_chunk; loud_chunk]; [quiet_chunk]] in
  (outcome r = Running /\ length (observed r) = 3%nat)
  \/ (outcome r = Stopped /\ (length (observed r) <= 3)%nat).
Proof.
  apply (X16_loop_keeps_running coarse_log10 [quiet_chunk]
           [[quiet_chunk]; [loud_chunk; loud_chunk]; [quiet_chunk]]).
  - repeat constructor; discriminate.
  - repeat constructor.
Defined.
